(** * readera: the reading-session logic of [src/App.tsx]

    A shallow embedding of the pure helpers ([normalizeHref], [flatten],
    [resolveChapterTitle], [activeFontStack]) and of the event handlers
    ([initialiseBook], [destroyCurrentBook], [goTo], [goPrevious], [goNext],
    [handleProgressChange], [onRelocated]) of the React component [App].

    - A JavaScript string is the list of its UTF-16 code units.
    - A JavaScript number is an IEEE-754 binary64 value ([spec_float] of the
      Standard Library at precision 53, maximal exponent 1024).
    - The component state is a record with one field per [useState] cell.  A
      handler is a function of the values its closure captured at render
      time; it runs in a state-and-exception monad over the engine (epub.js,
      an opaque collaborator whose answers are a parameter) and the
      component state.  Reads go to the captured values, writes go through
      the setters, as in the source.
    - The engine keeps the history of the requests it received, from which
      the books and renditions that are live at any point are computed.
      [book.locations.length()], [percentageFromCfi] and [cfiFromPercentage]
      are observations of the engine and leave no trace in the history.
    - An event runs one handler to completion.  [console.error] and the
      effects of the component other than the [relocated] subscription are
      outside the model: the effects that push the font size and the theme
      to the rendition, and the teardown effect, whose cleanup calls the
      [destroyCurrentBook] of the previous render each time [book] or
      [rendition] changes.  That cleanup destroys nothing when the previous
      render held no session.  The properties of loads are therefore stated
      for loads that start while no session is published, and the
      properties of the typography controls for the component state only. *)

From Stdlib Require Import String Ascii.
From Stdlib Require Import List NArith ZArith QArith Qabs Lia Bool.
From Stdlib Require Import Floats.SpecFloat.
From Stdlib Require DecimalNat.
Import ListNotations.
Close Scope Q_scope.

Set Implicit Arguments.

(* ================================================================= *)
(** * JavaScript strings *)

Module JsString.

Local Open Scope N_scope.

(** A string is its sequence of UTF-16 code units. *)
Definition jsstring := list N.

(** The code units of an ASCII literal. *)
Fixpoint str (s : string) : jsstring :=
  match s with
  | EmptyString => []
  | String c r => N_of_ascii c :: str r
  end.

Arguments str s%_string.

Definition HASH : N := 35.
Definition DQUOTE : N := 34.

(** A double-quoted word, as it occurs inside a CSS font stack. *)
Definition quoted (s : string) : jsstring := DQUOTE :: str s ++ [DQUOTE].
Arguments quoted s%_string.

Fixpoint eqb (a b : jsstring) : bool :=
  match a, b with
  | [], [] => true
  | x :: a', y :: b' => (x =? y) && eqb a' b'
  | _, _ => false
  end.

(** Truthiness of a string: every string but the empty one. *)
Definition truthy (s : jsstring) : bool :=
  match s with [] => false | _ :: _ => true end.

(** [s.split(sep)[0]] for a one-unit separator: the code units before the
    first occurrence of [sep], the whole string when there is none. *)
Fixpoint split_head (sep : N) (s : jsstring) : jsstring :=
  match s with
  | [] => []
  | c :: r => if c =? sep then [] else c :: split_head sep r
  end.

(** ECMAScript WhiteSpace and LineTerminator code points, the set that
    [String.prototype.trim] strips. *)
Definition is_whitespace (c : N) : bool :=
  (c =? 9) || (c =? 10) || (c =? 11) || (c =? 12) || (c =? 13) || (c =? 32)
  || (c =? 160) || (c =? 5760) || ((8192 <=? c) && (c <=? 8202))
  || (c =? 8232) || (c =? 8233) || (c =? 8239) || (c =? 8287)
  || (c =? 12288) || (c =? 65279).

Fixpoint trimStart (s : jsstring) : jsstring :=
  match s with
  | [] => []
  | c :: r => if is_whitespace c then trimStart r else s
  end.

Definition trimEnd (s : jsstring) : jsstring := rev (trimStart (rev s)).

Definition trim (s : jsstring) : jsstring := trimEnd (trimStart s).

(** [a || b] on strings. *)
Definition or_else (a b : jsstring) : jsstring := if truthy a then a else b.

End JsString.
Import JsString.

(* ================================================================= *)
(** * Locators and the table of contents *)

(** [const normalizeHref = (href?: string) => (href ? href.split('#')[0] : '')] *)
Definition normalizeHref (href : option jsstring) : jsstring :=
  match href with
  | Some h => if truthy h then split_head HASH h else []
  | None => []
  end.

(** [NavItem] of epub.js: [{ id, href, label, subitems? }]. *)
#[warning="-register-all"]
Inductive NavItem : Type :=
  mkNavItem { nav_id : jsstring;
              nav_href : jsstring;
              nav_label : jsstring;
              nav_subitems : option (list NavItem) }.

(** [type TocEntry = NavItem & { depth: number }]: the entry [{ ...item, depth }]. *)
Record TocEntry : Type := mkTocEntry { toc_item : NavItem; toc_depth : nat }.

Definition toc_href (e : TocEntry) : jsstring := nav_href (toc_item e).
Definition toc_label (e : TocEntry) : jsstring := nav_label (toc_item e).

(** The callback that [flatten] hands to [reduce]:
    [(acc, item) => { acc.push({ ...item, depth });
                      if (item.subitems && item.subitems.length)
                        acc.push(...flatten(item.subitems, depth + 1));
                      return acc; }].
    The recursive call [flatten(item.subitems, depth + 1)] is the inner
    [fold_left] from the empty accumulator. *)
Fixpoint flatten_reducer (depth : nat) (acc : list TocEntry) (item : NavItem)
  {struct item} : list TocEntry :=
  let acc1 := acc ++ [mkTocEntry item depth] in
  match nav_subitems item with
  | Some subs =>
      if negb (Nat.eqb (length subs) 0)
      then acc1 ++ fold_left (flatten_reducer (depth + 1)) subs []
      else acc1
  | None => acc1
  end.

(** [const flatten = (items, depth = 0) => items.reduce(callback, [])] *)
Definition flatten (items : list NavItem) (depth : nat) : list TocEntry :=
  fold_left (flatten_reducer depth) items [].

(** [tocItems = flatten(toc)] *)
Definition tocItems (toc : list NavItem) : list TocEntry := flatten toc 0.

(** [resolveChapterTitle], a closure over [tocItems]:
    [if (!href || !tocItems.length) return '';
     const normalized = normalizeHref(href);
     const match = tocItems.find((item) => normalizeHref(item.href) === normalized);
     return match?.label?.trim() || '';] *)
Definition resolveChapterTitle (tocItems : list TocEntry) (href : option jsstring)
  : jsstring :=
  let falsy := match href with Some h => negb (truthy h) | None => true end in
  if falsy || Nat.eqb (length tocItems) 0 then []
  else
    let normalized := normalizeHref href in
    match find (fun item => eqb (normalizeHref (Some (toc_href item))) normalized)
               tocItems with
    | Some m => or_else (trim (toc_label m)) []
    | None => []
    end.

(** The subitems of an entry, none when the field is absent. *)
Definition children (item : NavItem) : list NavItem :=
  match nav_subitems item with Some subs => subs | None => [] end.

(** Number of nodes of a navigation tree, all levels included. *)
Fixpoint node_count_item (item : NavItem) : nat :=
  match nav_subitems item with
  | Some subs => S (fold_right (fun c n => node_count_item c + n) 0 subs)
  | None => 1
  end.

Definition node_count (items : list NavItem) : nat :=
  fold_right (fun c n => node_count_item c + n) 0 items.

(* ================================================================= *)
(** * Fonts *)

(** [FontOption]; the [style] field (CSS properties of the picker) takes no
    part in the resolution of the stack and is left out. *)
Record FontOption : Type :=
  mkFontOption { font_id : jsstring; font_label : jsstring; font_stack : jsstring }.

Definition FONT_OPTIONS : list FontOption :=
  [ mkFontOption (str "reader-sans") (str "Clean Sans")
      (quoted "Inter" ++ str ", " ++ quoted "Segoe UI"
       ++ str ", system-ui, -apple-system, BlinkMacSystemFont, "
       ++ quoted "Helvetica Neue" ++ str ", sans-serif");
    mkFontOption (str "reader-serif") (str "Bookish Serif")
      (quoted "Literata" ++ str ", " ++ quoted "Merriweather" ++ str ", "
       ++ quoted "Georgia" ++ str ", " ++ quoted "Times New Roman" ++ str ", serif");
    mkFontOption (str "editorial-serif") (str "Editorial Serif")
      (quoted "Newsreader" ++ str ", " ++ quoted "Iowan Old Style" ++ str ", "
       ++ quoted "Baskerville" ++ str ", serif");
    mkFontOption (str "mono") (str "Mono")
      (quoted "IBM Plex Mono" ++ str ", " ++ quoted "Source Code Pro" ++ str ", "
       ++ quoted "SFMono-Regular" ++ str ", monospace");
    mkFontOption (str "reader-devanagari") (str "Harmony (English + Marathi + Hindi)")
      (str "kalam") ].

Definition CUSTOM_FONT_ID : jsstring := str "custom".

(** [FONT_OPTIONS[0].stack] *)
Definition DEFAULT_FONT_STACK : jsstring :=
  match FONT_OPTIONS with
  | option0 :: _ => font_stack option0
  | [] => []
  end.

(** [activeFontStack]:
    [if (fontChoice === CUSTOM_FONT_ID) return customFont.trim() || DEFAULT_FONT_STACK;
     return FONT_OPTIONS.find((option) => option.id === fontChoice)?.stack
            || DEFAULT_FONT_STACK;] *)
Definition activeFontStack (fontChoice customFont : jsstring) : jsstring :=
  if eqb fontChoice CUSTOM_FONT_ID
  then or_else (trim customFont) DEFAULT_FONT_STACK
  else
    match find (fun option => eqb (font_id option) fontChoice) FONT_OPTIONS with
    | Some option => or_else (font_stack option) DEFAULT_FONT_STACK
    | None => DEFAULT_FONT_STACK
    end.

(* ================================================================= *)
(** * JavaScript numbers *)

Module JsNumber.

Local Open Scope Z_scope.

(** IEEE-754 binary64. *)
Definition number := spec_float.
Definition prec : Z := 53.
Definition emax : Z := 1024.

Definition zero : number := S754_zero false.

Definition mul : number -> number -> number := SFmul prec emax.
Definition div : number -> number -> number := SFdiv prec emax.

(** The number nearest to the integer [z]. *)
Definition of_Z (z : Z) : number := binary_normalize prec emax z 0 false.

(** The number that a decimal numeral denotes: the binary64 value nearest to
    the quotient [n / d] of two positive integers (ties to even).  The
    division is the correctly rounded one, applied to the exact integers. *)
Definition of_quotient (sign : bool) (n d : positive) : number :=
  div (S754_finite sign n 0) (S754_finite false d 0).

(** [Number.isFinite] *)
Definition isFinite (x : number) : bool :=
  match x with
  | S754_zero _ | S754_finite _ _ _ => true
  | S754_infinity _ | S754_nan => false
  end.

(** The integer [n] for which [n / 10 - m * 2^e] is as close to zero as
    possible, the larger one when there are two: the digits that
    [toFixed(1)] prints for the positive value [m * 2^e]. *)
Definition tenths (m : positive) (e : Z) : Z :=
  match e with
  | Z0 => 10 * Zpos m
  | Zpos _ => 10 * Zpos m * 2 ^ e
  | Zneg _ => (20 * Zpos m + 2 ^ (- e)) / 2 ^ (1 - e)
  end.

(** [m * 2^e >= 10^21], the bound from which [toFixed] prints the number as
    [ToString] does. *)
Definition at_least_1e21 (m : positive) (e : Z) : bool :=
  match e with
  | Zneg _ => 10 ^ 21 * 2 ^ (- e) <=? Zpos m
  | _ => 10 ^ 21 <=? Zpos m * 2 ^ e
  end.

(** [Number(x.toFixed(1))].  [toFixed(1)] prints a non-finite [x] and an [x]
    of magnitude at least [10^21] as [ToString] does, and [Number] reads that
    text back as [x]; otherwise it prints the sign of a negative [x] and the
    decimal numeral of [tenths / 10], which [Number] reads as the nearest
    binary64 value. *)
Definition toFixed1_Number (x : number) : number :=
  match x with
  | S754_nan => S754_nan
  | S754_infinity s => S754_infinity s
  | S754_zero _ => S754_zero false
  | S754_finite s m e =>
      if at_least_1e21 m e then x
      else
        match tenths m e with
        | Zpos n => of_quotient s n 10
        | _ => S754_zero s
        end
  end.

(** The numeric literal [100]. *)
Definition hundred : number := of_Z 100.

End JsNumber.
Import JsNumber.

(* ================================================================= *)
(** * The rendering engine (epub.js), an opaque collaborator *)

Module Engine.

(** A [Book] or [Rendition] object is known by the handle the engine gave
    it when it was constructed. *)
Definition handle := nat.

(** [ePub(source, ...)] takes [ArrayBuffer | string]. *)
Inductive Source : Type :=
| Buffer (bytes : list N)
| Url (url : jsstring).

(** The requests the component sends to the engine.  A request either
    resolves or throws (rejects). *)
Inductive Call : Type :=
| EPub (book : handle) (source : Source)            (* ePub(source, { openAs: 'binary' }) *)
| RenderTo (book rendition : handle)                (* book.renderTo(viewer, ...) *)
| ThemesFontSize (rendition : handle) (percent : number)
| Display (rendition : handle) (target : option jsstring)
| LoadedNavigation (book : handle)                  (* await book.loaded.navigation *)
| Ready (book : handle)                             (* await book.ready *)
| LocationsGenerate (book : handle) (chars : nat)
| Prev (rendition : handle)
| Next (rendition : handle)
| RenditionDestroy (rendition : handle)
| BookDestroy (book : handle).

(** What the engine answers; the component has no say in it. *)
Record Behaviour : Type := mkBehaviour {
  rejects : Call -> bool;
  navigation_toc : handle -> list NavItem;
  parsed_locations : handle -> nat;        (* index size found in the file *)
  generated_locations : handle -> nat;     (* index size after [generate] *)
  percentageFromCfi : handle -> jsstring -> number;
  cfiFromPercentage : handle -> number -> jsstring }.

(** One entry of the engine's history: a request and whether it resolved. *)
Record Entry : Type := mkEntry { entry_call : Call; entry_ok : bool }.

(** The engine as the component can observe it: the handles given out, the
    size of each book's location index ([book.locations.length()], absent
    means 0) and the history of requests, oldest first. *)
Record State : Type := mkState {
  next_handle : handle;
  locations : list (handle * nat);
  history : list Entry }.

Definition initial : State := mkState 0 [] [].

Fixpoint lookup (b : handle) (l : list (handle * nat)) : nat :=
  match l with
  | [] => 0
  | (b', n) :: r => if Nat.eqb b b' then n else lookup b r
  end.

(** [book.locations.length()] *)
Definition locations_length (st : State) (b : handle) : nat :=
  lookup b (locations st).

Definition remove (h : handle) (l : list handle) : list handle :=
  filter (fun x => negb (Nat.eqb x h)) l.

(** The books that a history leaves live: constructed by a resolved [ePub]
    and not yet released by a resolved [destroy]. *)
Definition live_books_step (live : list handle) (e : Entry) : list handle :=
  match entry_call e, entry_ok e with
  | EPub b _, true => live ++ [b]
  | BookDestroy b, true => remove b live
  | _, _ => live
  end.

Definition live_books (h : list Entry) : list handle :=
  fold_left live_books_step h [].

(** The renditions that a history leaves attached to the viewport. *)
Definition live_renditions_step (live : list handle) (e : Entry) : list handle :=
  match entry_call e, entry_ok e with
  | RenderTo _ r, true => live ++ [r]
  | RenditionDestroy r, true => remove r live
  | _, _ => live
  end.

Definition live_renditions (h : list Entry) : list handle :=
  fold_left live_renditions_step h [].

(** At most one book and at most one rendition are live after [h]. *)
Definition at_most_one_session (h : list Entry) : bool :=
  (length (live_books h) <=? 1)%nat && (length (live_renditions h) <=? 1)%nat.

(** ... and after every prefix of [h]: at no point of the history were two
    sessions live. *)
Definition never_two_sessions (h : list Entry) : bool :=
  forallb (fun n => at_most_one_session (firstn n h)) (seq 0 (S (length h))).

End Engine.
Import Engine.

(* ================================================================= *)
(** * The component state *)

Inductive ThemeName : Type := light | sepia | dark.

(** One field per [useState] cell of [App]. *)
Record AppState : Type := mkAppState {
  book : option handle;
  rendition : option handle;
  toc : list NavItem;
  progress : number;
  fontSize : number;
  theme : ThemeName;
  currentChapter : jsstring;
  fileName : jsstring;
  loading : bool;
  error : option jsstring;
  fontChoice : jsstring;
  customFont : jsstring;
  lineSpacing : number;
  activeHref : jsstring }.

(** The initial value of every cell. *)
Definition initial_state : AppState :=
  {| book := None; rendition := None; toc := []; progress := zero;
     fontSize := of_Z 110; theme := light; currentChapter := []; fileName := [];
     loading := false; error := None;
     fontChoice := match FONT_OPTIONS with o :: _ => font_id o | [] => [] end;
     customFont := []; lineSpacing := of_Z 150; activeHref := [] |}.

(** The whole system: the engine, the component state, and whether
    [viewerRef.current] holds the viewport element. *)
Record Sys : Type := mkSys {
  engine : Engine.State;
  ui : AppState;
  viewer : bool }.

Definition initial_sys : Sys := mkSys Engine.initial initial_state true.

(** ** Handlers run in a state-and-exception monad over [Sys] *)

Module Handler.

Inductive Completion (A : Type) : Type :=
| Normal (a : A)
| Thrown (c : Call).
Arguments Normal {A} a.
Arguments Thrown {A} c.

Definition M (A : Type) : Type := Sys -> Completion A * Sys.

Definition ret {A} (a : A) : M A := fun s => (Normal a, s).

Definition bind {A B} (m : M A) (k : A -> M B) : M B :=
  fun s =>
    match m s with
    | (Normal a, s') => k a s'
    | (Thrown c, s') => (Thrown c, s')
    end.

Definition throw {A} (c : Call) : M A := fun s => (Thrown c, s).

Definition get : M Sys := fun s => (Normal s, s).

Definition modify_ui (f : AppState -> AppState) : M unit :=
  fun s => (Normal tt, mkSys (engine s) (f (ui s)) (viewer s)).

Definition modify_engine (f : Engine.State -> Engine.State) : M unit :=
  fun s => (Normal tt, mkSys (f (engine s)) (ui s) (viewer s)).

(** [try { body } catch (err) { handler } finally { fin }] *)
Definition try_catch_finally (body : M unit) (handler : Call -> M unit)
                             (fin : M unit) : M unit :=
  fun s =>
    let after_catch :=
      match body s with
      | (Normal _, s1) => (Normal tt, s1)
      | (Thrown c, s1) => handler c s1
      end in
    match fin (snd after_catch) with
    | (Normal _, s3) => (fst after_catch, s3)
    | (Thrown c, s3) => (Thrown c, s3)
    end.

Declare Scope handler_scope.
Delimit Scope handler_scope with handler.
Notation "x <- m ;; k" := (bind m (fun x => k))
  (at level 61, m at next level, right associativity) : handler_scope.
Notation "m ;; k" := (bind m (fun _ => k))
  (at level 61, right associativity) : handler_scope.

End Handler.
Import Handler.
Local Open Scope handler_scope.

(** ** State setters *)

Definition setBook (v : option handle) : M unit :=
  modify_ui (fun a =>
    mkAppState v (rendition a) (toc a) (progress a) (fontSize a) (theme a)
      (currentChapter a) (fileName a) (loading a) (error a) (fontChoice a)
      (customFont a) (lineSpacing a) (activeHref a)).

Definition setRendition (v : option handle) : M unit :=
  modify_ui (fun a =>
    mkAppState (book a) v (toc a) (progress a) (fontSize a) (theme a)
      (currentChapter a) (fileName a) (loading a) (error a) (fontChoice a)
      (customFont a) (lineSpacing a) (activeHref a)).

Definition setToc (v : list NavItem) : M unit :=
  modify_ui (fun a =>
    mkAppState (book a) (rendition a) v (progress a) (fontSize a) (theme a)
      (currentChapter a) (fileName a) (loading a) (error a) (fontChoice a)
      (customFont a) (lineSpacing a) (activeHref a)).

Definition setProgress (v : number) : M unit :=
  modify_ui (fun a =>
    mkAppState (book a) (rendition a) (toc a) v (fontSize a) (theme a)
      (currentChapter a) (fileName a) (loading a) (error a) (fontChoice a)
      (customFont a) (lineSpacing a) (activeHref a)).

Definition setFontSize (v : number) : M unit :=
  modify_ui (fun a =>
    mkAppState (book a) (rendition a) (toc a) (progress a) v (theme a)
      (currentChapter a) (fileName a) (loading a) (error a) (fontChoice a)
      (customFont a) (lineSpacing a) (activeHref a)).

Definition setTheme (v : ThemeName) : M unit :=
  modify_ui (fun a =>
    mkAppState (book a) (rendition a) (toc a) (progress a) (fontSize a) v
      (currentChapter a) (fileName a) (loading a) (error a) (fontChoice a)
      (customFont a) (lineSpacing a) (activeHref a)).

Definition setCurrentChapter (v : jsstring) : M unit :=
  modify_ui (fun a =>
    mkAppState (book a) (rendition a) (toc a) (progress a) (fontSize a) (theme a)
      v (fileName a) (loading a) (error a) (fontChoice a)
      (customFont a) (lineSpacing a) (activeHref a)).

Definition setFileName (v : jsstring) : M unit :=
  modify_ui (fun a =>
    mkAppState (book a) (rendition a) (toc a) (progress a) (fontSize a) (theme a)
      (currentChapter a) v (loading a) (error a) (fontChoice a)
      (customFont a) (lineSpacing a) (activeHref a)).

Definition setLoading (v : bool) : M unit :=
  modify_ui (fun a =>
    mkAppState (book a) (rendition a) (toc a) (progress a) (fontSize a) (theme a)
      (currentChapter a) (fileName a) v (error a) (fontChoice a)
      (customFont a) (lineSpacing a) (activeHref a)).

Definition setError (v : option jsstring) : M unit :=
  modify_ui (fun a =>
    mkAppState (book a) (rendition a) (toc a) (progress a) (fontSize a) (theme a)
      (currentChapter a) (fileName a) (loading a) v (fontChoice a)
      (customFont a) (lineSpacing a) (activeHref a)).

Definition setFontChoice (v : jsstring) : M unit :=
  modify_ui (fun a =>
    mkAppState (book a) (rendition a) (toc a) (progress a) (fontSize a) (theme a)
      (currentChapter a) (fileName a) (loading a) (error a) v
      (customFont a) (lineSpacing a) (activeHref a)).

Definition setCustomFont (v : jsstring) : M unit :=
  modify_ui (fun a =>
    mkAppState (book a) (rendition a) (toc a) (progress a) (fontSize a) (theme a)
      (currentChapter a) (fileName a) (loading a) (error a) (fontChoice a)
      v (lineSpacing a) (activeHref a)).

Definition setLineSpacing (v : number) : M unit :=
  modify_ui (fun a =>
    mkAppState (book a) (rendition a) (toc a) (progress a) (fontSize a) (theme a)
      (currentChapter a) (fileName a) (loading a) (error a) (fontChoice a)
      (customFont a) v (activeHref a)).

Definition setActiveHref (v : jsstring) : M unit :=
  modify_ui (fun a =>
    mkAppState (book a) (rendition a) (toc a) (progress a) (fontSize a) (theme a)
      (currentChapter a) (fileName a) (loading a) (error a) (fontChoice a)
      (customFont a) (lineSpacing a) v).

(** The message of [setError] in the [catch] block. *)
Definition LOAD_ERROR_MESSAGE : jsstring :=
  str "We could not open that EPUB. Please try a different file.".

(** A selected or dropped file. *)
Record File : Type := mkFile { file_name : jsstring; file_bytes : list N }.

(** A relocation event: [location?.start] with its [href] and [cfi]. *)
Record LocationStart : Type :=
  mkLocationStart { start_href : option jsstring; start_cfi : jsstring }.
Record Location : Type := mkLocation { loc_start : option LocationStart }.

Section WithEngine.

(** The engine behind the component. *)
Variable E : Behaviour.

(** ** Requests to the engine *)

(** The effect that a resolved request has on what the component can
    observe of the engine. *)
Definition effect (c : Call) (locs : list (handle * nat)) : list (handle * nat) :=
  match c with
  | Ready b => (b, parsed_locations E b) :: locs
  | LocationsGenerate b _ => (b, generated_locations E b) :: locs
  | BookDestroy b => (b, 0) :: locs
  | _ => locs
  end.

(** Send [c]: it is recorded, then resolves with its effect or throws. *)
Definition request (c : Call) : M unit :=
  let ok := negb (rejects E c) in
  modify_engine (fun st =>
    mkState (next_handle st)
            (if ok then effect c (locations st) else locations st)
            (history st ++ [mkEntry c ok])) ;;
  if ok then ret tt else throw c.

(** The handle of the next object the engine constructs. *)
Definition fresh : M handle :=
  s <- get ;;
  modify_engine (fun st =>
    mkState (S (next_handle st)) (locations st) (history st)) ;;
  ret (next_handle (engine s)).

Definition ePub (source : Source) : M handle :=
  b <- fresh ;; request (EPub b source) ;; ret b.

Definition renderTo (b : handle) : M handle :=
  r <- fresh ;; request (RenderTo b r) ;; ret r.

(** [book.locations.length()], read off the engine. *)
Definition locationsLength (b : handle) : M nat :=
  s <- get ;; ret (locations_length (engine s) b).

(** ** The handlers

    A handler is a closure: [captured] is the component state of the render
    that created it.  What it reads of [book], [rendition], [fontSize] and
    [toc] are the captured values; what it writes goes through the
    setters. *)

(** [destroyCurrentBook], [useCallback(..., [book, rendition])]:
    [if (rendition) { rendition.destroy(); setRendition(null); }
     if (book) { await book.destroy(); setBook(null); }] *)
Definition destroyCurrentBook (captured : AppState) : M unit :=
  match rendition captured with
  | Some r => request (RenditionDestroy r) ;; setRendition None
  | None => ret tt
  end ;;
  match book captured with
  | Some b => request (BookDestroy b) ;; setBook None
  | None => ret tt
  end.

(** [initialiseBook], [useCallback(..., [destroyCurrentBook, fontSize])].
    Its [destroyCurrentBook] is the one of the same render, in the [catch]
    block as before the [try]. *)
Definition initialiseBook (captured : AppState) (source : Source) (name : jsstring)
  : M unit :=
  s <- get ;;
  if negb (viewer s) then ret tt
  else
    setLoading true ;;
    setError None ;;
    setProgress zero ;;
    setCurrentChapter [] ;;
    setToc [] ;;
    setActiveHref [] ;;
    destroyCurrentBook captured ;;
    try_catch_finally
      (nextBook <- ePub source ;;
       nextRendition <- renderTo nextBook ;;
       request (ThemesFontSize nextRendition (fontSize captured)) ;;
       setBook (Some nextBook) ;;
       setRendition (Some nextRendition) ;;
       setFileName name ;;
       request (Display nextRendition None) ;;
       request (LoadedNavigation nextBook) ;;
       setToc (navigation_toc E nextBook) ;;
       request (Ready nextBook) ;;
       len <- locationsLength nextBook ;;
       if Nat.eqb len 0 then request (LocationsGenerate nextBook 1200) else ret tt)
      (fun err =>
         setError (Some LOAD_ERROR_MESSAGE) ;;
         setFileName [] ;;
         setToc [] ;;
         setProgress zero ;;
         setCurrentChapter [] ;;
         setActiveHref [] ;;
         destroyCurrentBook captured)
      (setLoading false).

(** [handleFileSelection]: the first file, if any, is loaded. *)
Definition handleFileSelection (captured : AppState) (files : list File) : M unit :=
  match files with
  | [] => ret tt
  | file :: _ => initialiseBook captured (Buffer (file_bytes file)) (file_name file)
  end.

(** [goTo] *)
Definition goTo (captured : AppState) (href : jsstring) : M unit :=
  match rendition captured with
  | None => ret tt
  | Some r =>
      setActiveHref (normalizeHref (Some href)) ;;
      request (Display r (Some href))
  end.

(** [goPrevious] *)
Definition goPrevious (captured : AppState) : M unit :=
  match rendition captured with
  | None => ret tt
  | Some r => request (Prev r)
  end.

(** [goNext] *)
Definition goNext (captured : AppState) : M unit :=
  match rendition captured with
  | None => ret tt
  | Some r => request (Next r)
  end.

(** [handleProgressChange]; [value] is [Number(event.target.value)]. *)
Definition handleProgressChange (captured : AppState) (value : number) : M unit :=
  match book captured, rendition captured with
  | Some b, Some r =>
      len <- locationsLength b ;;
      if Nat.eqb len 0 then ret tt
      else
        setProgress value ;;
        request (Display r (Some (cfiFromPercentage E b (div value hundred))))
  | _, _ => ret tt
  end.

(** [onRelocated], the listener that the effect with dependencies
    [[book, rendition, resolveChapterTitle]] subscribes; [b] is its [book]. *)
Definition onRelocated (captured : AppState) (b : handle)
                       (location : option Location) : M unit :=
  match location with
  | Some (mkLocation (Some start)) =>
      let href := normalizeHref (start_href start) in
      setActiveHref href ;;
      let nextChapter := resolveChapterTitle (tocItems (toc captured)) (Some href) in
      setCurrentChapter nextChapter ;;
      len <- locationsLength b ;;
      if Nat.eqb len 0 then ret tt
      else
        let percentage := percentageFromCfi E b (start_cfi start) in
        let normalized :=
          if isFinite percentage
          then toFixed1_Number (mul percentage hundred)
          else zero in
        setProgress normalized
  | _ => ret tt
  end.

(** ** Events *)

Inductive Event : Type :=
| FilesSelected (files : list File)
| TocClicked (href : jsstring)
| PreviousClicked
| NextClicked
| ProgressChanged (value : number)
| RelocatedFired (location : option Location)
| FontSizeChanged (value : number)
| ThemeChanged (value : ThemeName)
| FontChoiceChanged (value : jsstring)
| CustomFontChanged (value : jsstring)
| LineSpacingChanged (value : number).

(** An event runs the handler of the latest render, whose closure holds the
    current component state.  The [relocated] listener is subscribed only
    while there are a book and a rendition.  The handler alone is run, not
    the effects that the following render triggers: the requests that the
    font-size and theme effects send to the rendition after a typography
    event or a load, and the cleanup of the teardown effect after a change
    of [book] or [rendition], are not part of the step. *)
Definition dispatch (ev : Event) : M unit :=
  s <- get ;;
  let captured := ui s in
  match ev with
  | FilesSelected files => handleFileSelection captured files
  | TocClicked href => goTo captured href
  | PreviousClicked => goPrevious captured
  | NextClicked => goNext captured
  | ProgressChanged value => handleProgressChange captured value
  | RelocatedFired location =>
      match book captured, rendition captured with
      | Some b, Some _ => onRelocated captured b location
      | _, _ => ret tt
      end
  | FontSizeChanged value => setFontSize value
  | ThemeChanged value => setTheme value
  | FontChoiceChanged value => setFontChoice value
  | CustomFontChanged value => setCustomFont value
  | LineSpacingChanged value => setLineSpacing value
  end.

(** One event, run to completion. *)
Definition step (s : Sys) (ev : Event) : Sys := snd (dispatch ev s).

(** A sequence of events from the mounted, empty component.  It is the
    program's run as long as every file selection starts while no session
    is published. *)
Definition run (evs : list Event) : Sys := fold_left step evs initial_sys.

End WithEngine.

(* ================================================================= *)
(** * Vocabulary of the properties *)

(** Exact rational value of the magnitude [m * 2^e] of a finite number. *)
Definition magnitude (m : positive) (e : Z) : Q :=
  match e with
  | Z0 => inject_Z (Zpos m)
  | Zpos p => inject_Z (Zpos m * 2 ^ Zpos p)
  | Zneg p => Qmake (Zpos m) (2 ^ p)%positive
  end.

(** What [Number] reads from the numeral that [toFixed(1)] prints for [n]
    tenths with sign [sign]. *)
Definition tenths_numeral (sign : bool) (n : Z) : number :=
  match n with
  | Zpos k => of_quotient sign k 10
  | _ => S754_zero sign
  end.

(** The entries at depth [d]. *)
Definition at_depth (d : nat) (e : TocEntry) : bool := Nat.eqb (toc_depth e) d.

(** [keeps Q m]: if the active locator satisfies [Q] before [m] runs, it
    satisfies [Q] afterwards, however [m] completes. *)
Definition keeps (Q : jsstring -> Prop) {A : Type} (m : M A) : Prop :=
  forall s, Q (activeHref (ui s)) -> Q (activeHref (ui (snd (m s)))).

Create HintDb keeps.

(** The sessions that the component state publishes. *)
Definition published (a : AppState) : list handle * list handle :=
  (match book a with Some b => [b] | None => [] end,
   match rendition a with Some r => [r] | None => [] end).

(** An engine that rejects the requests that [rej] selects and resolves all
    others, for books without a table of contents whose location index is
    built on demand. *)
Definition rejecting (rej : Call -> bool) : Behaviour :=
  mkBehaviour rej (fun _ => []) (fun _ => 0) (fun _ => 12)
              (fun _ _ => zero) (fun _ _ => []).

(** [rendition.display()], the initial display of rendition [r]. *)
Definition is_initial_display (r : handle) (c : Call) : bool :=
  match c with Display r' None => Nat.eqb r' r | _ => false end.

(** [rendition.themes.fontSize(...)] on rendition [r]. *)
Definition is_font_size (r : handle) (c : Call) : bool :=
  match c with ThemesFontSize r' _ => Nat.eqb r' r | _ => false end.

Definition some_file : File := mkFile (str "book.epub") [80%N; 75%N; 3%N; 4%N].

(* ================================================================= *)
(** * What the component renders *)

(** ** Decimal numerals *)

Module Numeral.

Local Open Scope N_scope.

Definition ZERO : N := 48.
Definition POINT : N := 46.
Definition MINUS : N := 45.

(** The code units of a decimal numeral, most significant digit first. *)
Fixpoint of_uint (d : Decimal.uint) : jsstring :=
  match d with
  | Decimal.Nil => []
  | Decimal.D0 r => 48 :: of_uint r
  | Decimal.D1 r => 49 :: of_uint r
  | Decimal.D2 r => 50 :: of_uint r
  | Decimal.D3 r => 51 :: of_uint r
  | Decimal.D4 r => 52 :: of_uint r
  | Decimal.D5 r => 53 :: of_uint r
  | Decimal.D6 r => 54 :: of_uint r
  | Decimal.D7 r => 55 :: of_uint r
  | Decimal.D8 r => 56 :: of_uint r
  | Decimal.D9 r => 57 :: of_uint r
  end.

(** The numeral that a string of digits spells, if it is one. *)
Fixpoint to_uint (s : jsstring) : option Decimal.uint :=
  match s with
  | [] => Some Decimal.Nil
  | c :: r =>
      match to_uint r with
      | None => None
      | Some d =>
          match c with
          | 48 => Some (Decimal.D0 d)
          | 49 => Some (Decimal.D1 d)
          | 50 => Some (Decimal.D2 d)
          | 51 => Some (Decimal.D3 d)
          | 52 => Some (Decimal.D4 d)
          | 53 => Some (Decimal.D5 d)
          | 54 => Some (Decimal.D6 d)
          | 55 => Some (Decimal.D7 d)
          | 56 => Some (Decimal.D8 d)
          | 57 => Some (Decimal.D9 d)
          | _ => None
          end
      end
  end.

Definition is_digit (c : N) : bool := (48 <=? c) && (c <=? 57).

(** [String(n)] for a non-negative integer [n] below [10^21]: its decimal
    digits, without leading zeros. *)
Definition String_of_nat (n : nat) : jsstring := of_uint (Nat.to_uint n).

Definition String_of_N (n : N) : jsstring := of_uint (N.to_uint n).

(** The number that a string of digits denotes. *)
Definition nat_of_String (s : jsstring) : option nat :=
  option_map Nat.of_uint (to_uint s).

(** [s.padStart(targetLength, pad)] for a one-unit [pad]. *)
Definition padStart (targetLength : nat) (pad : N) (s : jsstring) : jsstring :=
  repeat pad (targetLength - length s) ++ s.

End Numeral.
Import Numeral.

(** ** Flags and labels derived from the state *)

(** [const hasBook = Boolean(book)] *)
Definition hasBook (a : AppState) : bool :=
  match book a with Some _ => true | None => false end.

(** [const locationsReady = book ? book.locations.length() > 0 : false] *)
Definition locationsReady (s : Sys) : bool :=
  match book (ui s) with
  | Some b => (0 <? locations_length (engine s) b)%nat
  | None => false
  end.

(** [const navDisabled = !hasBook || loading] *)
Definition navDisabled (a : AppState) : bool := negb (hasBook a) || loading a.

(** [const sliderDisabled = !locationsReady || loading] *)
Definition sliderDisabled (s : Sys) : bool :=
  negb (locationsReady s) || loading (ui s).

(** [const tocDisabled = !hasBook || loading] *)
Definition tocDisabled (a : AppState) : bool := negb (hasBook a) || loading a.

(** [const chapterDisplay = currentChapter || 'Choose a chapter to begin'] *)
Definition chapterDisplay (a : AppState) : jsstring :=
  or_else (currentChapter a) (str "Choose a chapter to begin").

(** [{fileName || 'No book selected yet'}] *)
Definition fileNameDisplay (a : AppState) : jsstring :=
  or_else (fileName a) (str "No book selected yet").

(** [{fileName ? 'Change book' : 'Open EPUB'}] *)
Definition pickerLabel (a : AppState) : jsstring :=
  if truthy (fileName a) then str "Change book" else str "Open EPUB".

(** [{hasBook ? tocItems.length : 0}] *)
Definition tocCount (a : AppState) : nat :=
  if hasBook a then length (tocItems (toc a)) else 0.

(** ** One row of the chapter list: [tocItems.map((item, index) => ...)] *)

(** [const depth = Math.min(item.depth, 3)] *)
Definition row_depth (item : TocEntry) : nat := Nat.min (toc_depth item) 3.

(** [const title = item.label?.trim() || 'Untitled section'] *)
Definition row_title (item : TocEntry) : jsstring :=
  or_else (trim (toc_label item)) (str "Untitled section").

(** [const isActive = normalizeHref(item.href) === activeHref] *)
Definition row_isActive (a : AppState) (item : TocEntry) : bool :=
  eqb (normalizeHref (Some (toc_href item))) (activeHref a).

(** [const ordinal = String(index + 1).padStart(2, '0')] *)
Definition row_ordinal (index : nat) : jsstring :=
  padStart 2 ZERO (String_of_nat (index + 1)).

(** [const childCount = item.subitems?.length || 0] *)
Definition row_childCount (item : TocEntry) : nat :=
  match nav_subitems (toc_item item) with
  | Some subs => length subs
  | None => 0
  end.

(** [depth === 0 ? 'Chapter' : depth === 1 ? 'Section' : 'Subsection'] *)
Definition row_depthLabel (item : TocEntry) : jsstring :=
  match row_depth item with
  | 0 => str "Chapter"
  | 1 => str "Section"
  | _ => str "Subsection"
  end.

(** [key={`${item.id || item.href}-${index}`}] *)
Definition row_key (item : TocEntry) (index : nat) : jsstring :=
  or_else (nav_id (toc_item item)) (toc_href item)
  ++ str "-" ++ String_of_nat index.

(** [className={`toc-item depth-${depth}${isActive ? ' is-active' : ''}`}] *)
Definition row_className (a : AppState) (item : TocEntry) : jsstring :=
  str "toc-item depth-" ++ String_of_nat (row_depth item)
  ++ (if row_isActive a item then str " is-active" else []).

(** The keys of the rendered rows, in order. *)
Fixpoint row_keys_from (index : nat) (items : list TocEntry) : list jsstring :=
  match items with
  | [] => []
  | item :: rest => row_key item index :: row_keys_from (S index) rest
  end.

Definition row_keys (items : list TocEntry) : list jsstring := row_keys_from 0 items.

(** ** Numbers printed with a fixed number of decimals *)

Section ToFixed.

(** [Number::toString], to which [toFixed] hands the numbers that are not
    finite or not below [10^21]. *)
Variable ToString : number -> jsstring.

(** The integer [n] for which [n / 10^f - m * 2^e] is as close to zero as
    possible, the larger one when there are two. *)
Definition scaled_integer (f : nat) (m : positive) (e : Z) : Z :=
  match e with
  | Z0 => (10 ^ Z.of_nat f * Zpos m)%Z
  | Zpos _ => (10 ^ Z.of_nat f * Zpos m * 2 ^ e)%Z
  | Zneg _ => ((2 * 10 ^ Z.of_nat f * Zpos m + 2 ^ (- e)) / 2 ^ (1 - e))%Z
  end.

(** The digits of [n] with a point before the last [f] of them, zeros put
    in front so that a digit stands before the point. *)
Definition with_point (f : nat) (n : N) : jsstring :=
  let m := String_of_N n in
  match f with
  | 0 => m
  | _ =>
      let m := repeat ZERO (f + 1 - length m) ++ m in
      let k := length m in
      firstn (k - f) m ++ [POINT] ++ skipn (k - f) m
  end.

(** [x.toFixed(f)] *)
Definition toFixed (f : nat) (x : number) : jsstring :=
  match x with
  | S754_nan | S754_infinity _ => ToString x
  | S754_zero _ => with_point f 0
  | S754_finite s m e =>
      if at_least_1e21 m e then ToString x
      else (if s then [MINUS] else []) ++ with_point f (Z.to_N (scaled_integer f m e))
  end.

(** [const lineHeightValue = (lineSpacing / 100).toFixed(2)] *)
Definition lineHeightValue (a : AppState) : jsstring :=
  toFixed 2 (div (lineSpacing a) hundred).

(** [{progress.toFixed(1)}%] *)
Definition progressLabel (a : AppState) : jsstring :=
  toFixed 1 (progress a) ++ str "%".

(** [{lineHeightValue}x] *)
Definition lineHeightLabel (a : AppState) : jsstring :=
  lineHeightValue a ++ str "x".

End ToFixed.

(** ** Style sheets *)

Module Style.

(** An object with string keys: its properties in insertion order. *)
Definition object (V : Type) : Type := list (jsstring * V).

(** [o[k] = v]: an existing property keeps its place, a new one goes last. *)
Fixpoint assign {V : Type} (k : jsstring) (v : V) (o : object V) : object V :=
  match o with
  | [] => [(k, v)]
  | (k', v') :: r => if eqb k' k then (k, v) :: r else (k', v') :: assign k v r
  end.

(** [o[k]] *)
Fixpoint lookup {V : Type} (k : jsstring) (o : object V) : option V :=
  match o with
  | [] => None
  | (k', v) :: r => if eqb k' k then Some v else lookup k r
  end.

(** [{ ...o, k1: v1, ..., kn: vn }]: the properties of the literal are
    assigned in the order they are written. *)
Definition extend {V : Type} (o : object V) (props : list (jsstring * V)) : object V :=
  fold_left (fun acc kv => assign (fst kv) (snd kv) acc) props o.

(** [{ k1: v1, ..., kn: vn }] *)
Definition literal {V : Type} (props : list (jsstring * V)) : object V :=
  extend [] props.

Definition keys {V : Type} (o : object V) : list jsstring := map fst o.

(** The declarations of one selector, and a sheet of selectors. *)
Definition rule : Type := object jsstring.
Definition sheet : Type := object rule.

End Style.

(** [const mediaStyles = (captionColor) => ({ ... })] *)
Definition mediaStyles (captionColor : jsstring) : Style.sheet :=
  Style.literal
    [ (str "img, svg, image, figure",
       Style.literal
         [ (str "maxWidth", str "100%");
           (str "height", str "auto");
           (str "objectFit", str "contain");
           (str "display", str "block");
           (str "margin", str "1rem auto") ]);
      (str "figure figcaption",
       Style.literal
         [ (str "textAlign", str "center");
           (str "fontSize", str "0.85em");
           (str "color", captionColor) ]) ].

(** [readerThemes]: [{ body: { background, color }, ...mediaStyles(caption) }] *)
Definition readerTheme (background color caption : jsstring) : Style.sheet :=
  Style.extend
    (Style.literal
       [ (str "body",
          Style.literal [ (str "background", background); (str "color", color) ]) ])
    (mediaStyles caption).

Definition readerThemes (name : ThemeName) : Style.sheet :=
  match name with
  | light => readerTheme (str "#fdfdfd") (str "#1c1f28") (str "#6b7280")
  | sepia => readerTheme (str "#f5ecd7") (str "#3b2f1d") (str "#7c6751")
  | dark => readerTheme (str "#11131a") (str "#eceff4") (str "#94a3b8")
  end.

(** [baseTheme.k || {}] *)
Definition rule_or_empty (k : jsstring) (base : Style.sheet) : Style.rule :=
  match Style.lookup k base with Some r => r | None => [] end.

(** [composedTheme], the memo over [theme], [activeFontStack] and
    [lineHeightValue]. *)
Definition composedTheme (theme : ThemeName) (activeFontStack lineHeightValue : jsstring)
  : Style.sheet :=
  let baseTheme := readerThemes theme in
  Style.extend baseTheme
    [ (str "html, body",
       Style.literal
         [ (str "margin", str "0 !important");
           (str "padding", str "0 !important");
           (str "max-width", str "100% !important");
           (str "overflow-x", str "hidden !important") ]);
      (str "body",
       Style.extend (rule_or_empty (str "body") baseTheme)
         [ (str "font-family", activeFontStack);
           (str "line-height", lineHeightValue);
           (str "padding", str "0 20px !important");
           (str "box-sizing", str "border-box !important") ]);
      (str "p",
       Style.extend (rule_or_empty (str "p") baseTheme)
         [ (str "lineHeight", lineHeightValue);
           (str "font-family", activeFontStack);
           (str "font-size", str "1em !important");
           (str "margin-bottom", str "1em !important") ]);
      (str "li",
       Style.extend (rule_or_empty (str "li") baseTheme)
         [ (str "lineHeight", lineHeightValue);
           (str "font-family", activeFontStack) ]);
      (str "img, svg, video, object",
       Style.literal
         [ (str "max-width", str "100% !important");
           (str "height", str "auto !important");
           (str "box-sizing", str "border-box !important") ]);
      (str "table",
       Style.literal
         [ (str "max-width", str "100% !important");
           (str "table-layout", str "fixed !important") ]);
      (str "div, span, p, section, article",
       Style.literal
         [ (str "max-width", str "100% !important");
           (str "box-sizing", str "border-box !important") ]) ].

(** The style sheet of the current state. *)
Definition currentTheme (ToString : number -> jsstring) (a : AppState) : Style.sheet :=
  composedTheme (theme a) (activeFontStack (fontChoice a) (customFont a))
                (lineHeightValue ToString a).

(** ** File intake by drop *)

(** [handleDrop]:
    [if (event.dataTransfer.files?.length) await handleFileSelection(files)] *)
Definition handleDrop (E : Behaviour) (captured : AppState) (files : list File)
  : M unit :=
  if negb (Nat.eqb (length files) 0)
  then handleFileSelection E captured files
  else ret tt.

(** ** Reasoning about handlers *)

(** [wp m Q s]: run from [s], the handler [m] completes with a completion
    and a state that satisfy [Q]. *)
Definition wp {A : Type} (m : M A) (Q : Completion A -> Sys -> Prop) (s : Sys) : Prop :=
  Q (fst (m s)) (snd (m s)).

(** The typography settings of the state. *)
Definition typography (a : AppState)
  : number * ThemeName * jsstring * jsstring * number :=
  (fontSize a, theme a, fontChoice a, customFont a, lineSpacing a).

(** The published session is the live one, and no two sessions were ever
    live. *)
Definition exclusive (s : Sys) : Prop :=
  live_books (history (engine s)) = fst (published (ui s)) /\
  live_renditions (history (engine s)) = snd (published (ui s)) /\
  never_two_sessions (history (engine s)) = true.

(** The events of the typography and theme controls. *)
Definition is_typography_event (ev : Event) : bool :=
  match ev with
  | FontSizeChanged _ | ThemeChanged _ | FontChoiceChanged _
  | CustomFontChanged _ | LineSpacingChanged _ => true
  | _ => false
  end.

(** The cells of the state that belong to the book being read. *)
Definition reading (a : AppState)
  : option handle * option handle * list NavItem * number * jsstring * jsstring
    * bool * option jsstring * jsstring :=
  (book a, rendition a, toc a, progress a, currentChapter a, fileName a,
   loading a, error a, activeHref a).

(** [n] hundredths, or tenths, written with a decimal point. *)
Definition hundredths_text (n : nat) : jsstring :=
  String_of_nat (n / 100) ++ [POINT]
  ++ String_of_nat (n mod 100 / 10) ++ String_of_nat (n mod 10).

Definition tenths_text (n : nat) : jsstring :=
  String_of_nat (n / 10) ++ [POINT] ++ String_of_nat (n mod 10).

(* ================================================================= *)
(** * Properties of strings and locators *)

Lemma eqb_eq (a b : jsstring) : eqb a b = true <-> a = b.
Proof.
  revert b; induction a as [|x a IH]; intros [|y b]; simpl; split;
    try congruence; try reflexivity.
  - intros H. apply andb_true_iff in H as [Hxy Hab].
    apply N.eqb_eq in Hxy. apply IH in Hab. congruence.
  - intros H. injection H as -> ->. rewrite N.eqb_refl. simpl. now apply IH.
Qed.

Lemma eqb_neq (a b : jsstring) : eqb a b = false <-> a <> b.
Proof.
  destruct (eqb a b) eqn:H; split; intros H'; try congruence.
  - apply eqb_eq in H. contradiction.
  - intros Heq. apply eqb_eq in Heq. congruence.
Qed.

(** [split_head] cuts at the first separator: what it keeps holds no
    separator, and what it drops is nothing or starts with one. *)
Lemma split_head_spec (sep : N) (s : jsstring) :
  ~ In sep (split_head sep s) /\
  exists rest, s = split_head sep s ++ rest /\
               (rest = [] \/ exists r, rest = sep :: r).
Proof.
  induction s as [|c s [IHn [rest [IHs IHr]]]]; simpl.
  - split; [tauto|]. exists []. auto.
  - destruct (N.eqb_spec c sep) as [->|Hne].
    + split; [simpl; tauto|]. exists (sep :: s). split; [reflexivity|]. right. eauto.
    + split.
      * simpl. intros [H|H]; [congruence|contradiction].
      * exists rest. split; [simpl; congruence|assumption].
Qed.

Lemma split_head_no_sep (sep : N) (s : jsstring) :
  ~ In sep s -> split_head sep s = s.
Proof.
  induction s as [|c s IH]; simpl; [reflexivity|].
  intros H. destruct (N.eqb_spec c sep) as [->|Hne]; [tauto|].
  f_equal. apply IH. tauto.
Qed.

Lemma normalizeHref_no_hash (href : option jsstring) :
  ~ In HASH (normalizeHref href).
Proof.
  destruct href as [h|]; simpl; [|tauto].
  destruct (truthy h); [apply split_head_spec | simpl; tauto].
Qed.

Lemma normalizeHref_fixed (h : jsstring) :
  ~ In HASH h -> normalizeHref (Some h) = h.
Proof.
  intros H. unfold normalizeHref. destruct h as [|c h]; [reflexivity|].
  cbn [truthy]. now apply split_head_no_sep.
Qed.

(** C5. Locator normalization is idempotent: normalizing a normalized
    locator changes nothing, for every string and for the absent locator;
    [chap3.xhtml#section2] normalizes to [chap3.xhtml] and the empty string to
    itself. *)
Theorem normalizeHref_idempotent :
  (forall x : jsstring,
     normalizeHref (Some (normalizeHref (Some x))) = normalizeHref (Some x)) /\
  (forall x : option jsstring,
     normalizeHref (Some (normalizeHref x)) = normalizeHref x) /\
  normalizeHref (Some (str "chap3.xhtml#section2")) = str "chap3.xhtml" /\
  normalizeHref (Some (str "")) = str "".
Proof.
  assert (H : forall x, normalizeHref (Some (normalizeHref x)) = normalizeHref x)
    by (intros x; apply normalizeHref_fixed, normalizeHref_no_hash).
  repeat split; auto.
Qed.

(* ================================================================= *)
(** * Chapter resolution *)

Lemma find_first_match (A : Type) (f : A -> bool) (pre post : list A) (x : A) :
  (forall y, In y pre -> f y = false) -> f x = true ->
  find f (pre ++ x :: post) = Some x.
Proof.
  intros Hpre Hx. induction pre as [|y pre IH]; simpl.
  - now rewrite Hx.
  - rewrite (Hpre y) by (left; reflexivity). apply IH.
    intros z Hz. apply Hpre. now right.
Qed.

Lemma find_no_match (A : Type) (f : A -> bool) (l : list A) :
  (forall y, In y l -> f y = false) -> find f l = None.
Proof.
  intros H. induction l as [|y l IH]; simpl; [reflexivity|].
  rewrite (H y) by (left; reflexivity). apply IH. intros z Hz. apply H. now right.
Qed.

Lemma or_else_empty (s : jsstring) : or_else s [] = s.
Proof. now destruct s. Qed.

(** C4. [resolveChapterTitle] cuts the locator at its first [#], returns the
    trimmed label of the first flattened entry whose locator, cut the same
    way, is the same string, and returns the empty string when no entry
    matches, when the locator is absent or empty, and when the flattened
    table of contents is empty; nothing but an exact match yields a title. *)
Theorem resolveChapterTitle_exact_match
  (entries : list TocEntry) (href : option jsstring) :
  (* the normalized locator is the prefix before the first '#' *)
  (forall h, href = Some h ->
     ~ In HASH (normalizeHref href) /\
     exists rest, h = normalizeHref href ++ rest /\
                  (rest = [] \/ exists r, rest = HASH :: r)) /\
  (* absent or empty locator, or empty table of contents *)
  (href = None \/ href = Some [] \/ entries = [] ->
     resolveChapterTitle entries href = []) /\
  (* first exact match *)
  (forall h pre m post,
     href = Some h -> h <> [] ->
     entries = pre ++ m :: post ->
     (forall e, In e pre -> normalizeHref (Some (toc_href e)) <> normalizeHref href) ->
     normalizeHref (Some (toc_href m)) = normalizeHref href ->
     resolveChapterTitle entries href = trim (toc_label m)) /\
  (* no match, no title *)
  ((forall e, In e entries -> normalizeHref (Some (toc_href e)) <> normalizeHref href) ->
     resolveChapterTitle entries href = []).
Proof.
  split; [|split; [|split]].
  - intros h ->. split; [apply normalizeHref_no_hash|].
    unfold normalizeHref. destruct h as [|c h].
    + exists []. simpl. auto.
    + cbn [truthy]. apply split_head_spec.
  - intros [-> | [-> | ->]]; unfold resolveChapterTitle; simpl; try reflexivity.
    destruct href as [h|]; [destruct (truthy h)|]; reflexivity.
  - intros h pre m post -> Hh -> Hpre Hm. unfold resolveChapterTitle.
    destruct h as [|c h]; [congruence|]. cbn [truthy negb orb].
    rewrite length_app. simpl length. rewrite Nat.add_succ_r. cbn [Nat.eqb].
    rewrite find_first_match.
    + apply or_else_empty.
    + intros e He. apply eqb_neq. now apply Hpre.
    + now apply eqb_eq.
  - intros Hnone. unfold resolveChapterTitle.
    destruct (_ || _); [reflexivity|].
    rewrite find_no_match; [reflexivity|].
    intros e He. apply eqb_neq. now apply Hnone.
Qed.

(** The example of the specification: entries [Intro -> a.xhtml] and
    [Ch1 -> b.xhtml#x]; [b.xhtml#y] resolves to [Ch1]. *)
Lemma resolveChapterTitle_exact_match_witness :
  let intro := mkTocEntry (mkNavItem (str "i") (str "a.xhtml") (str "Intro") None) 0 in
  let ch1 := mkTocEntry (mkNavItem (str "c") (str "b.xhtml#x") (str " Ch1 ") None) 0 in
  resolveChapterTitle [intro; ch1] (Some (str "b.xhtml#y")) = str "Ch1" /\
  resolveChapterTitle [intro; ch1] (Some (str "missing.xhtml")) = [] /\
  resolveChapterTitle [intro; ch1] (Some []) = [] /\
  resolveChapterTitle [] (Some (str "a.xhtml")) = [].
Proof.
  intros intro ch1. split; [|split; [|split]].
  - apply (proj1 (proj2 (proj2 (resolveChapterTitle_exact_match [intro; ch1]
                                  (Some (str "b.xhtml#y")))))
             (str "b.xhtml#y") [intro] ch1 []); try reflexivity.
    + discriminate.
    + intros e [<- | []]. vm_compute. discriminate.
  - apply (proj2 (proj2 (proj2 (resolveChapterTitle_exact_match [intro; ch1]
                                  (Some (str "missing.xhtml")))))).
    intros e [<- | [<- | []]]; vm_compute; discriminate.
  - apply (proj1 (proj2 (resolveChapterTitle_exact_match [intro; ch1] (Some [])))).
    right; left; reflexivity.
  - apply (proj1 (proj2 (resolveChapterTitle_exact_match [] (Some (str "a.xhtml"))))).
    right; right; reflexivity.
Defined.

(* ================================================================= *)
(** * Flattening *)

Section ForestInduction.

Variable P : list NavItem -> Prop.
Hypothesis P_nil : P [].
Hypothesis P_cons :
  forall item rest, P (children item) -> P rest -> P (item :: rest).

(** Induction over a navigation tree: from the children of the first entry
    and from its later siblings. *)
Lemma forest_ind : forall items, P items.
Proof.
  assert (Hitem : forall item, P (children item)).
  { fix IH 1. intros [i h l [subs|]]; [|exact P_nil].
    unfold children. cbn [nav_subitems].
    induction subs as [|c subs IHsubs]; [exact P_nil|].
    apply P_cons; [apply IH | exact IHsubs]. }
  induction items as [|item rest IHrest]; [exact P_nil|].
  apply P_cons; [apply Hitem | exact IHrest].
Qed.

End ForestInduction.

Lemma flatten_reducer_acc (d : nat) (acc : list TocEntry) (item : NavItem) :
  flatten_reducer d acc item =
  acc ++ mkTocEntry item d :: flatten (children item) (d + 1).
Proof.
  destruct item as [i h l [subs|]]; unfold children, flatten; simpl.
  - destruct subs as [|c subs]; simpl.
    + reflexivity.
    + now rewrite <- app_assoc.
  - reflexivity.
Qed.

Lemma fold_left_flatten_reducer (d : nat) (items : list NavItem) (acc : list TocEntry) :
  fold_left (flatten_reducer d) items acc = acc ++ flatten items d.
Proof.
  unfold flatten. revert acc.
  induction items as [|item rest IH]; intros acc; cbn [fold_left].
  - now rewrite app_nil_r.
  - rewrite IH, (IH (flatten_reducer d [] item)), !flatten_reducer_acc.
    now rewrite app_assoc.
Qed.

(** The pre-order equations of [flatten]. *)
Lemma flatten_nil (d : nat) : flatten [] d = [].
Proof. reflexivity. Qed.

Lemma flatten_cons (d : nat) (item : NavItem) (rest : list NavItem) :
  flatten (item :: rest) d =
  mkTocEntry item d :: flatten (children item) (d + 1) ++ flatten rest d.
Proof.
  unfold flatten at 1. cbn [fold_left].
  now rewrite fold_left_flatten_reducer, flatten_reducer_acc.
Qed.

Lemma node_count_cons (item : NavItem) (rest : list NavItem) :
  node_count (item :: rest) = S (node_count (children item) + node_count rest).
Proof.
  unfold node_count at 1. cbn [fold_right]. fold (node_count rest).
  destruct item as [i h l [subs|]]; reflexivity.
Qed.

Lemma flatten_length (items : list NavItem) :
  forall d, length (flatten items d) = node_count items.
Proof.
  induction items as [|item rest IHc IHr] using forest_ind; intros d.
  - reflexivity.
  - rewrite flatten_cons, node_count_cons. cbn [length].
    now rewrite length_app, IHc, IHr.
Qed.

(** Every entry that [flatten items d] produces lies at depth [d] or deeper. *)
Lemma flatten_depth_ge (items : list NavItem) :
  forall d e, In e (flatten items d) -> d <= toc_depth e.
Proof.
  induction items as [|item rest IHc IHr] using forest_ind; intros d e.
  - intros [].
  - rewrite flatten_cons. intros [<- | H]; [simpl; lia|].
    apply in_app_or in H as [H|H].
    + apply IHc in H. lia.
    + now apply IHr.
Qed.

Lemma filter_none (A : Type) (f : A -> bool) (l : list A) :
  (forall x, In x l -> f x = false) -> filter f l = [].
Proof.
  induction l as [|x l IH]; intros H; simpl; [reflexivity|].
  rewrite (H x) by (left; reflexivity). apply IH. intros y Hy. apply H. now right.
Qed.

(** The entries of [flatten items d] at depth [d] are the [items] themselves,
    in their order. *)
Lemma flatten_level (items : list NavItem) (d : nat) :
  map toc_item (filter (at_depth d) (flatten items d)) = items.
Proof.
  induction items as [|item rest IH]; [reflexivity|].
  rewrite flatten_cons. cbn [filter]. unfold at_depth at 1. cbn [toc_depth].
  rewrite Nat.eqb_refl. cbn [map toc_item]. f_equal.
  rewrite filter_app, filter_none, app_nil_l; [exact IH|].
  intros e He. apply flatten_depth_ge in He. unfold at_depth.
  apply Nat.eqb_neq. lia.
Qed.

Lemma app_cons_split (A : Type) (pre post l1 l2 : list A) (x : A) :
  pre ++ x :: post = l1 ++ l2 ->
  (exists post1, l1 = pre ++ x :: post1 /\ post = post1 ++ l2) \/
  (exists pre2, pre = l1 ++ pre2 /\ l2 = pre2 ++ x :: post).
Proof.
  revert l1. induction pre as [|y pre IH]; intros [|z l1] H; simpl in *.
  - right. exists []. auto.
  - injection H as <- ->. left. exists l1. auto.
  - right. exists (y :: pre). auto.
  - injection H as <- H. apply IH in H as [[post1 [-> ->]] | [pre2 [-> ->]]].
    + left. exists post1. auto.
    + right. exists pre2. auto.
Qed.

(** Right after an entry come the entries of its subtree: its children
    flattened one level deeper. *)
Lemma flatten_subtree_follows (items : list NavItem) :
  forall d pre p post,
    flatten items d = pre ++ p :: post ->
    exists rest,
      post = flatten (children (toc_item p)) (toc_depth p + 1) ++ rest.
Proof.
  induction items as [|item rest IHc IHr] using forest_ind; intros d pre p post H.
  - destruct pre; discriminate.
  - rewrite flatten_cons in H. destruct pre as [|q pre].
    + injection H as <- <-. simpl. eauto.
    + injection H as _ H. symmetry in H.
      apply app_cons_split in H as [[post1 [H ->]] | [pre2 [_ H]]].
      * apply IHc in H as [r ->]. exists (r ++ flatten rest d).
        now rewrite app_assoc.
      * apply IHr in H as [r ->]. eauto.
Qed.

(** C3. [flatten] is a pre-order traversal: its output has as many entries
    as the tree has nodes on all levels; the entries at depth 0 are the
    top-level entries, in the order of the tree; and every entry is followed
    at once by the flattening of its children at its own depth plus one, whose
    entries at that depth are the children in the order of the tree. *)
Theorem flatten_preorder (tree : list NavItem) :
  length (flatten tree 0) = node_count tree /\
  map toc_item (filter (at_depth 0) (flatten tree 0)) = tree /\
  (forall pre p post,
     flatten tree 0 = pre ++ p :: post ->
     let below := flatten (children (toc_item p)) (toc_depth p + 1) in
     (exists rest, post = below ++ rest) /\
     map toc_item (filter (at_depth (toc_depth p + 1)) below) = children (toc_item p) /\
     (forall e, In e below -> toc_depth p + 1 <= toc_depth e)) /\
  (forall d item rest,
     flatten (item :: rest) d =
     mkTocEntry item d :: flatten (children item) (d + 1) ++ flatten rest d).
Proof.
  split; [apply flatten_length|].
  split; [apply flatten_level|].
  split.
  - intros pre p post H below. split; [|split].
    + eapply flatten_subtree_follows; eassumption.
    + apply flatten_level.
    + intros e. apply flatten_depth_ge.
  - intros d item rest. apply flatten_cons.
Qed.

(** A two-level tree: chapter [a] with sections [b] and [c], then chapter
    [d]; the entry of [a] is followed by [b] and [c] at depth 1. *)
Lemma flatten_preorder_witness :
  let leaf s := mkNavItem (str s) (str s) (str s) None in
  let a := mkNavItem (str "a") (str "a") (str "a") (Some [leaf "b"%string; leaf "c"%string]) in
  let tree := [a; leaf "d"%string] in
  flatten tree 0 =
    [mkTocEntry a 0; mkTocEntry (leaf "b"%string) 1; mkTocEntry (leaf "c"%string) 1;
     mkTocEntry (leaf "d"%string) 0] /\
  exists rest,
    [mkTocEntry (leaf "b"%string) 1; mkTocEntry (leaf "c"%string) 1; mkTocEntry (leaf "d"%string) 0] =
    flatten [leaf "b"%string; leaf "c"%string] 1 ++ rest.
Proof.
  intros leaf a tree. split; [reflexivity|].
  exact (proj1 (proj1 (proj2 (proj2 (flatten_preorder tree)))
                  [] (mkTocEntry a 0)
                  [mkTocEntry (leaf "b"%string) 1; mkTocEntry (leaf "c"%string) 1;
                   mkTocEntry (leaf "d"%string) 0] eq_refl)).
Defined.

(* ================================================================= *)
(** * Font-stack resolution *)

Lemma eqb_refl (a : jsstring) : eqb a a = true.
Proof. now apply eqb_eq. Qed.

(** C7. With the custom option selected the stack is the trimmed custom
    text when that is not empty and the stack of the first built-in option
    otherwise; with a built-in option selected it is the stack of that
    option; with an identifier that is neither, it is the stack of the first
    built-in option.  The resolved stack is never the empty string. *)
Theorem activeFontStack_resolution (fontChoice customFont : jsstring) :
  (fontChoice = CUSTOM_FONT_ID -> trim customFont <> [] ->
     activeFontStack fontChoice customFont = trim customFont) /\
  (fontChoice = CUSTOM_FONT_ID -> trim customFont = [] ->
     activeFontStack fontChoice customFont = font_stack (hd (mkFontOption [] [] []) FONT_OPTIONS)) /\
  (forall option, In option FONT_OPTIONS -> fontChoice = font_id option ->
     activeFontStack fontChoice customFont = font_stack option) /\
  (fontChoice <> CUSTOM_FONT_ID ->
   (forall option, In option FONT_OPTIONS -> font_id option <> fontChoice) ->
     activeFontStack fontChoice customFont = font_stack (hd (mkFontOption [] [] []) FONT_OPTIONS)) /\
  activeFontStack fontChoice customFont <> [].
Proof.
  split; [|split; [|split; [|split]]].
  - intros -> Hne. unfold activeFontStack. rewrite eqb_refl.
    destruct (trim customFont); [contradiction|reflexivity].
  - intros -> He. unfold activeFontStack. rewrite eqb_refl, He. reflexivity.
  - intros option Hin ->. simpl in Hin.
    repeat (destruct Hin as [<- | Hin]; [reflexivity|]). contradiction.
  - intros Hc Hnone. unfold activeFontStack.
    destruct (eqb fontChoice CUSTOM_FONT_ID) eqn:Hcustom;
      [apply eqb_eq in Hcustom; contradiction|].
    rewrite find_no_match; [reflexivity|].
    intros option Hin. apply eqb_neq. now apply Hnone.
  - unfold activeFontStack. destruct (eqb fontChoice CUSTOM_FONT_ID).
    + destruct (trim customFont); discriminate.
    + destruct (find _ FONT_OPTIONS) as [option|] eqn:Hfind; [|discriminate].
      apply find_some in Hfind as [Hin _]. simpl in Hin.
      repeat (destruct Hin as [<- | Hin]; [discriminate|]). contradiction.
Qed.

(** The custom option with blank custom text resolves to the stack of
    [reader-sans]; [mono] resolves to its own stack; an unknown identifier
    resolves to the stack of [reader-sans]. *)
Lemma activeFontStack_resolution_witness :
  activeFontStack (str "custom") (str "   ") =
    quoted "Inter" ++ str ", " ++ quoted "Segoe UI"
    ++ str ", system-ui, -apple-system, BlinkMacSystemFont, "
    ++ quoted "Helvetica Neue" ++ str ", sans-serif" /\
  activeFontStack (str "custom") (str " Georgia, serif ") = str "Georgia, serif" /\
  activeFontStack (str "mono") [] =
    quoted "IBM Plex Mono" ++ str ", " ++ quoted "Source Code Pro" ++ str ", "
    ++ quoted "SFMono-Regular" ++ str ", monospace" /\
  activeFontStack (str "comic") [] = DEFAULT_FONT_STACK.
Proof.
  split; [|split; [|split]].
  - apply (proj1 (proj2 (activeFontStack_resolution (str "custom") (str "   "))));
      reflexivity.
  - apply (proj1 (activeFontStack_resolution (str "custom") (str " Georgia, serif ")));
      [reflexivity | discriminate].
  - apply (proj1 (proj2 (proj2 (activeFontStack_resolution (str "mono") [])))
             (nth 3 FONT_OPTIONS (mkFontOption [] [] [])));
      [simpl; tauto | reflexivity].
  - apply (proj1 (proj2 (proj2 (proj2 (activeFontStack_resolution (str "comic") []))))).
    + discriminate.
    + intros option Hin. simpl in Hin.
      repeat (destruct Hin as [<- | Hin]; [discriminate|]). contradiction.
Defined.

(* ================================================================= *)
(** * Guards *)

(** C8. Next-page and previous-page without a rendition, and a progress
    change without a book, without a rendition or without a location index,
    complete normally and leave the whole system as it was: the engine
    receives no request (its history and its state are unchanged; the guard
    of the progress change only reads the size of the index) and no cell of
    the component state changes.  The same holds when the events are
    dispatched in a state with no rendition. *)
Theorem guard_violations_are_noops
  (E : Behaviour) (captured : AppState) (value : number) (s : Sys) :
  (rendition captured = None ->
     goNext E captured s = (Normal tt, s) /\
     goPrevious E captured s = (Normal tt, s)) /\
  (book captured = None \/ rendition captured = None \/
   (exists b, book captured = Some b /\ locations_length (engine s) b = 0) ->
     handleProgressChange E captured value s = (Normal tt, s)) /\
  (rendition (ui s) = None ->
     step E s NextClicked = s /\ step E s PreviousClicked = s /\
     step E s (ProgressChanged value) = s).
Proof.
  split; [|split].
  - intros H. unfold goNext, goPrevious. rewrite H. split; reflexivity.
  - intros [H | [H | [b [Hb Hlen]]]]; unfold handleProgressChange.
    + rewrite H. reflexivity.
    + rewrite H. now destruct (book captured).
    + rewrite Hb. destruct (rendition captured); [|reflexivity].
      unfold locationsLength, bind, get, ret. rewrite Hlen. reflexivity.
  - intros H. unfold step, dispatch, bind, get.
    unfold goNext, goPrevious, handleProgressChange. rewrite H.
    repeat split; try reflexivity. now destruct (book (ui s)).
Qed.

(** In the initial state, and in a state with a book and a rendition whose
    index is still empty, the three handlers change nothing. *)
Lemma guard_violations_are_noops_witness :
  let E := mkBehaviour (fun _ => false) (fun _ => []) (fun _ => 0) (fun _ => 0)
                       (fun _ _ => zero) (fun _ _ => []) in
  let opened := mkAppState (Some 0) (Some 1) [] zero (of_Z 110) light [] []
                           false None [] [] (of_Z 150) [] in
  goNext E initial_state initial_sys = (Normal tt, initial_sys) /\
  goPrevious E initial_state initial_sys = (Normal tt, initial_sys) /\
  handleProgressChange E opened (of_Z 50) (mkSys Engine.initial opened true)
    = (Normal tt, mkSys Engine.initial opened true) /\
  step E initial_sys NextClicked = initial_sys.
Proof.
  intros E opened.
  pose proof (guard_violations_are_noops E initial_state (of_Z 50) initial_sys)
    as [Hnav [_ Hstep]].
  pose proof (guard_violations_are_noops E opened (of_Z 50)
                (mkSys Engine.initial opened true)) as [_ [Hprog _]].
  split; [apply Hnav; reflexivity|].
  split; [apply Hnav; reflexivity|].
  split; [|apply Hstep; reflexivity].
  apply Hprog. right; right. exists 0. split; reflexivity.
Defined.

(* ================================================================= *)
(** * The relocation listener *)

(** C9. When no location index exists for the book, a relocation event
    leaves the stored progress and everything else as it was, except the
    active locator and the chapter title, which it sets (when the event
    carries a start position) to the normalized start locator and to the
    title resolved from it. *)
Theorem onRelocated_without_index_keeps_progress
  (E : Behaviour) (captured : AppState) (b : handle)
  (location : option Location) (s : Sys) :
  locations_length (engine s) b = 0 ->
  let s' := snd (onRelocated E captured b location s) in
  fst (onRelocated E captured b location s) = Normal tt /\
  progress (ui s') = progress (ui s) /\
  s' = mkSys (engine s)
         (mkAppState (book (ui s)) (rendition (ui s)) (toc (ui s)) (progress (ui s))
            (fontSize (ui s)) (theme (ui s)) (currentChapter (ui s'))
            (fileName (ui s)) (loading (ui s)) (error (ui s)) (fontChoice (ui s))
            (customFont (ui s)) (lineSpacing (ui s)) (activeHref (ui s')))
         (viewer s) /\
  (forall start, location = Some (mkLocation (Some start)) ->
     activeHref (ui s') = normalizeHref (start_href start) /\
     currentChapter (ui s') =
       resolveChapterTitle (tocItems (toc captured))
                           (Some (normalizeHref (start_href start)))).
Proof.
  intros Hlen s'. subst s'.
  destruct s as [eng a v]. destruct a. simpl in Hlen.
  destruct location as [[[start|]]|]; cbn.
  - unfold locations_length in *. rewrite Hlen. cbn.
    split; [|split; [|split]]; try reflexivity.
    intros st [= <-]. split; reflexivity.
  - split; [|split; [|split]]; try reflexivity. discriminate.
  - split; [|split; [|split]]; try reflexivity. discriminate.
Qed.

Lemma onRelocated_without_index_keeps_progress_witness :
  let E := mkBehaviour (fun _ => false) (fun _ => []) (fun _ => 0) (fun _ => 0)
                       (fun _ _ => of_Z 1) (fun _ _ => []) in
  let opened := mkAppState (Some 0) (Some 1) [] (of_Z 42) (of_Z 110) light [] []
                           false None [] [] (of_Z 150) [] in
  let location := Some (mkLocation (Some (mkLocationStart (Some (str "c.xhtml#p3"))
                                                          (str "epubcfi(/6/4!)")))) in
  let s' := snd (onRelocated E opened 0 location (mkSys Engine.initial opened true)) in
  progress (ui s') = of_Z 42 /\ activeHref (ui s') = str "c.xhtml".
Proof.
  intros E opened location s'.
  pose proof (onRelocated_without_index_keeps_progress E opened 0 location
                (mkSys Engine.initial opened true) eq_refl) as [_ [Hp [_ Ha]]].
  split; [exact Hp|].
  exact (proj1 (Ha _ eq_refl)).
Defined.

(** ** Rounding to one decimal *)

(** [tenths m e] is the integer nearest to ten times [m * 2^e], the larger
    one of the two when [m * 2^e] lies half-way. *)
Lemma tenths_nearest (m : positive) (e : Z) :
  (- (1 # 2) <= 10 * magnitude m e - inject_Z (tenths m e) /\
   10 * magnitude m e - inject_Z (tenths m e) < 1 # 2)%Q.
Proof.
  destruct e as [|p|p]; unfold magnitude, tenths.
  - unfold Qle, Qlt, Qminus, Qplus, Qmult, Qopp, inject_Z; cbn [Qnum Qden]. lia.
  - unfold Qle, Qlt, Qminus, Qplus, Qmult, Qopp, inject_Z; cbn [Qnum Qden].
    set (k := (2 ^ Zpos p)%Z). lia.
  - change (- Zneg p)%Z with (Zpos p). change (1 - Zneg p)%Z with (1 + Zpos p)%Z.
    rewrite Z.pow_add_r by lia. change (2 ^ 1)%Z with 2%Z.
    assert (Hk : (Zpos (2 ^ p) = 2 ^ Zpos p)%Z) by (now rewrite Pos2Z.inj_pow).
    assert (Hpos : (0 < 2 ^ Zpos p)%Z) by (apply Z.pow_pos_nonneg; lia).
    set (k := (2 ^ Zpos p)%Z) in *.
    pose proof (Z.div_mod (20 * Zpos m + k) (2 * k) ltac:(lia)) as Hdiv.
    pose proof (Z.mod_pos_bound (20 * Zpos m + k) (2 * k) ltac:(lia)) as Hmod.
    set (n := ((20 * Zpos m + k) / (2 * k))%Z) in *.
    set (r := ((20 * Zpos m + k) mod (2 * k))%Z) in *.
    unfold Qle, Qlt, Qminus, Qplus, Qmult, Qopp, inject_Z.
    cbn [Qnum Qden]. rewrite !Pos.mul_1_r, !Pos.mul_1_l. rewrite Hk.
    split; nia.
Qed.

(** C6. On a relocation event for a book with a location index, the stored
    progress is 0 when the fraction reported by the index is not finite, and
    otherwise the fraction times 100 printed with one decimal and read back:
    below [10^21] that is the number denoted by [n / 10], where [n] is the
    integer nearest to ten times the scaled value (the larger one on a tie);
    a scaled value of zero is stored as 0 and one from [10^21] on, an
    integer, as it is.  The fraction 0.4567 is stored as 45.7. *)
Theorem onRelocated_stores_rounded_percentage
  (E : Behaviour) (captured : AppState) (b : handle)
  (start : LocationStart) (s : Sys) :
  locations_length (engine s) b <> 0 ->
  let p := percentageFromCfi E b (start_cfi start) in
  let scaled := mul p hundred in
  let stored :=
    progress (ui (snd (onRelocated E captured b (Some (mkLocation (Some start))) s))) in
  (isFinite p = false -> stored = zero) /\
  (isFinite p = true -> stored = toFixed1_Number scaled) /\
  (isFinite p = true ->
   forall sign m e,
     scaled = S754_finite sign m e -> at_least_1e21 m e = false ->
     exists n : Z,
       (- (1 # 2) <= 10 * magnitude m e - inject_Z n /\
        10 * magnitude m e - inject_Z n < 1 # 2)%Q /\
       stored = tenths_numeral sign n) /\
  (isFinite p = true ->
   (forall sign, scaled = S754_zero sign -> stored = zero) /\
   (forall sign m e,
      scaled = S754_finite sign m e -> at_least_1e21 m e = true ->
      stored = scaled)) /\
  (p = of_quotient false 4567 10000 -> stored = of_quotient false 457 10).
Proof.
  intros Hlen p scaled stored.
  assert (Hstored : stored = if isFinite p then toFixed1_Number scaled else zero).
  { subst stored. apply Nat.eqb_neq in Hlen.
    unfold onRelocated, locationsLength, bind, get, ret.
    cbn [setActiveHref setCurrentChapter modify_ui engine ui viewer fst snd].
    rewrite Hlen. reflexivity. }
  split; [|split; [|split; [|split]]].
  - intros H. now rewrite Hstored, H.
  - intros H. now rewrite Hstored, H.
  - intros H sign m e Hs Hbig. rewrite Hstored, H, Hs.
    exists (tenths m e). split; [apply tenths_nearest|].
    unfold toFixed1_Number. rewrite Hbig. unfold tenths_numeral.
    now destruct (tenths m e).
  - intros H. rewrite Hstored, H. split.
    + intros sign ->. reflexivity.
    + intros sign m e -> Hbig. unfold toFixed1_Number. now rewrite Hbig.
  - intros H. rewrite Hstored. subst scaled. rewrite H. vm_compute. reflexivity.
Qed.

(** The double that the literals [0.4567] and [45.7] denote lie within half
    a unit in the last place of 4567/10000 and of 457/10, and an index that
    reports 0.4567 makes the listener store 45.7. *)
Lemma onRelocated_stores_rounded_percentage_witness :
  let E := mkBehaviour (fun _ => false) (fun _ => []) (fun _ => 0) (fun _ => 0)
                       (fun _ _ => of_quotient false 4567 10000) (fun _ _ => []) in
  let opened := mkAppState (Some 0) (Some 1) [] zero (of_Z 110) light [] []
                           false None [] [] (of_Z 150) [] in
  let s := mkSys (mkState 2 [(0, 12)] []) opened true in
  let start := mkLocationStart (Some (str "c.xhtml")) (str "epubcfi(/6/4!)") in
  progress (ui (snd (onRelocated E opened 0 (Some (mkLocation (Some start))) s)))
    = S754_finite false 6431703217838490 (-47) /\
  (Qabs (magnitude 6431703217838490 (-47) - (457 # 10)) <= 1 # 2 ^ 48)%Q /\
  of_quotient false 4567 10000 = S754_finite false 8227175799280422 (-54) /\
  (Qabs (magnitude 8227175799280422 (-54) - (4567 # 10000)) <= 1 # 2 ^ 55)%Q.
Proof.
  intros E opened s start.
  split; [|split; [|split]].
  - apply (proj2 (proj2 (proj2 (proj2
      (onRelocated_stores_rounded_percentage E opened 0 start s
         ltac:(vm_compute; discriminate)))))).
    reflexivity.
  - vm_compute. discriminate.
  - vm_compute. reflexivity.
  - vm_compute. discriminate.
Defined.

(* ================================================================= *)
(** * The active locator *)

Section Keeps.

Variable E : Behaviour.
Variable Q : jsstring -> Prop.

Lemma keeps_ret (A : Type) (a : A) : keeps Q (ret a).
Proof. intros s H. exact H. Qed.

Lemma keeps_throw (A : Type) (c : Call) : keeps Q (@throw A c).
Proof. intros s H. exact H. Qed.

Lemma keeps_get : keeps Q get.
Proof. intros s H. exact H. Qed.

Lemma keeps_bind (A B : Type) (m : M A) (k : A -> M B) :
  keeps Q m -> (forall a, keeps Q (k a)) -> keeps Q (bind m k).
Proof.
  intros Hm Hk s H. unfold bind. specialize (Hm s H).
  destruct (m s) as [[a|c] s1]; cbn in *; [now apply Hk | exact Hm].
Qed.

Lemma keeps_modify_engine (f : Engine.State -> Engine.State) :
  keeps Q (modify_engine f).
Proof. intros s H. exact H. Qed.

Lemma keeps_modify_ui (f : AppState -> AppState) :
  (forall a, activeHref (f a) = activeHref a) -> keeps Q (modify_ui f).
Proof. intros Hf s H. cbn. now rewrite Hf. Qed.

Lemma keeps_setActiveHref (v : jsstring) : Q v -> keeps Q (setActiveHref v).
Proof. intros Hv s _. exact Hv. Qed.

Lemma keeps_try_catch_finally (body : M unit) (handler : Call -> M unit)
                              (fin : M unit) :
  keeps Q body -> (forall c, keeps Q (handler c)) -> keeps Q fin ->
  keeps Q (try_catch_finally body handler fin).
Proof.
  intros Hb Hh Hf s H. unfold try_catch_finally. specialize (Hb s H).
  destruct (body s) as [[[]|c] s1]; cbn in *.
  - specialize (Hf s1 Hb). destruct (fin s1) as [[[]|c] s3]; exact Hf.
  - specialize (Hh c s1 Hb). destruct (handler c s1) as [r s2]; cbn in *.
    specialize (Hf s2 Hh). destruct (fin s2) as [[[]|c'] s3]; exact Hf.
Qed.

Lemma keeps_request (c : Call) : keeps Q (request E c).
Proof.
  unfold request. apply keeps_bind; [apply keeps_modify_engine|].
  intros _. destruct (negb (rejects E c)); [apply keeps_ret | apply keeps_throw].
Qed.

Lemma keeps_fresh : keeps Q (fresh).
Proof.
  unfold fresh. apply keeps_bind; [apply keeps_get|]. intros s.
  apply keeps_bind; [apply keeps_modify_engine|]. intros _. apply keeps_ret.
Qed.

Lemma keeps_locationsLength (b : handle) : keeps Q (locationsLength b).
Proof.
  unfold locationsLength. apply keeps_bind; [apply keeps_get|].
  intros s. apply keeps_ret.
Qed.

Hint Resolve keeps_ret keeps_throw keeps_get keeps_modify_engine
  keeps_request keeps_fresh keeps_locationsLength : keeps.

(** One step through a handler: sequencing, the setters other than
    [setActiveHref], and the engine. *)
Ltac keeps_step :=
  first
    [ solve [auto with keeps]
    | apply keeps_modify_ui; intros ?; reflexivity
    | apply keeps_try_catch_finally; [| intros ? |]
    | apply keeps_bind; [|intros ?] ].

Lemma keeps_destroyCurrentBook (captured : AppState) :
  keeps Q (destroyCurrentBook E captured).
Proof.
  unfold destroyCurrentBook.
  destruct (rendition captured), (book captured); repeat keeps_step.
Qed.

Hint Resolve keeps_destroyCurrentBook : keeps.

Lemma keeps_initialiseBook (captured : AppState) (source : Source) (name : jsstring) :
  Q [] -> keeps Q (initialiseBook E captured source name).
Proof.
  intros Hnil. unfold initialiseBook, ePub, renderTo.
  apply keeps_bind; [apply keeps_get|]. intros s.
  destruct (negb (viewer s)); [apply keeps_ret|].
  repeat first
    [ apply keeps_setActiveHref; exact Hnil
    | match goal with |- keeps _ (if ?b then _ else _) => destruct b end
    | keeps_step ].
Qed.

Lemma keeps_dispatch (ev : Event) :
  (forall x, Q (normalizeHref x)) -> keeps Q (dispatch E ev).
Proof.
  intros Hnorm. assert (Hnil : Q []) by apply (Hnorm None).
  unfold dispatch. apply keeps_bind; [apply keeps_get|]. intros s.
  destruct ev; try (apply keeps_modify_ui; intros ?; reflexivity).
  - unfold handleFileSelection. destruct files; [apply keeps_ret|].
    now apply keeps_initialiseBook.
  - unfold goTo. destruct (rendition (ui s)); [|apply keeps_ret].
    apply keeps_bind; [apply keeps_setActiveHref, Hnorm|].
    intros _. apply keeps_request.
  - unfold goPrevious. destruct (rendition (ui s)); auto with keeps.
  - unfold goNext. destruct (rendition (ui s)); auto with keeps.
  - unfold handleProgressChange.
    destruct (book (ui s)), (rendition (ui s)); auto with keeps.
    apply keeps_bind; [apply keeps_locationsLength|]. intros len.
    destruct (Nat.eqb len 0); repeat keeps_step.
  - destruct (book (ui s)), (rendition (ui s)); auto with keeps.
    unfold onRelocated. destruct location as [[[start|]]|]; auto with keeps.
    apply keeps_bind; [apply keeps_setActiveHref, Hnorm|]. intros _.
    apply keeps_bind; [apply keeps_modify_ui; intros ?; reflexivity|]. intros _.
    apply keeps_bind; [apply keeps_locationsLength|]. intros len.
    destruct (Nat.eqb len 0); repeat keeps_step.
Qed.

End Keeps.

(** C10. The active locator never holds a [#]: every event leaves it as it
    was or sets it to a normalized locator (the empty string is the
    normalized absent locator), so no state that a sequence of events
    reaches from the initial state has a [#] in it. *)
Theorem activeHref_never_has_fragment (E : Behaviour) :
  (forall s ev,
     activeHref (ui (step E s ev)) = activeHref (ui s) \/
     exists x, activeHref (ui (step E s ev)) = normalizeHref x) /\
  (forall s ev,
     ~ In HASH (activeHref (ui s)) -> ~ In HASH (activeHref (ui (step E s ev)))) /\
  (forall evs, ~ In HASH (activeHref (ui (run E evs)))).
Proof.
  assert (Hstep : forall s ev,
     activeHref (ui (step E s ev)) = activeHref (ui s) \/
     exists x, activeHref (ui (step E s ev)) = normalizeHref x).
  { intros s ev. unfold step.
    apply (@keeps_dispatch E
             (fun h => h = activeHref (ui s) \/ exists x, h = normalizeHref x)).
    - intros x. right. now exists x.
    - now left. }
  assert (Hinv : forall s ev,
     ~ In HASH (activeHref (ui s)) -> ~ In HASH (activeHref (ui (step E s ev)))).
  { intros s ev H. destruct (Hstep s ev) as [-> | [x ->]];
      [exact H | apply normalizeHref_no_hash]. }
  split; [exact Hstep|]. split; [exact Hinv|].
  intros evs. unfold run.
  assert (Hgen : forall s, ~ In HASH (activeHref (ui s)) ->
                           ~ In HASH (activeHref (ui (fold_left (step E) evs s)))).
  { induction evs as [|ev evs IH]; intros s H; cbn [fold_left]; [exact H|].
    apply IH, Hinv, H. }
  apply Hgen. simpl. tauto.
Qed.

(** A click on a table-of-contents entry with a fragment, after a load. *)
Lemma activeHref_never_has_fragment_witness :
  let E := mkBehaviour (fun _ => false) (fun _ => []) (fun _ => 0) (fun _ => 9)
                       (fun _ _ => zero) (fun _ _ => []) in
  let evs := [FilesSelected [mkFile (str "a.epub") [80%N; 75%N]];
              TocClicked (str "ch2.xhtml#s1")] in
  activeHref (ui (run E evs)) = str "ch2.xhtml" /\
  ~ In HASH (activeHref (ui (run E evs))).
Proof.
  intros E evs. split; [reflexivity|].
  apply (proj2 (proj2 (activeHref_never_has_fragment E)) evs).
Defined.

(* ================================================================= *)
(** * Loading a book *)

(** When the construction of the book throws, a load started from a state
    whose published session is the live one rolls back to the empty state:
    no session is published, none is live, and the derived fields are
    reset under a non-empty error message. *)
Lemma initialiseBook_rollback_when_construction_throws
  (E : Behaviour) (source : Source) (name : jsstring) (s : Sys) :
  viewer s = true ->
  (forall r, rejects E (RenditionDestroy r) = false) ->
  (forall b, rejects E (BookDestroy b) = false) ->
  rejects E (EPub (next_handle (engine s)) source) = true ->
  (live_books (history (engine s)), live_renditions (history (engine s)))
    = published (ui s) ->
  let r := initialiseBook E (ui s) source name s in
  fst r = Normal tt /\
  book (ui (snd r)) = None /\
  rendition (ui (snd r)) = None /\
  live_books (history (engine (snd r))) = [] /\
  live_renditions (history (engine (snd r))) = [] /\
  toc (ui (snd r)) = [] /\
  progress (ui (snd r)) = zero /\
  currentChapter (ui (snd r)) = [] /\
  activeHref (ui (snd r)) = [] /\
  fileName (ui (snd r)) = [] /\
  error (ui (snd r)) = Some LOAD_ERROR_MESSAGE /\
  LOAD_ERROR_MESSAGE <> [] /\
  loading (ui (snd r)) = false.
Proof.
  intros Hv Hrd Hbd Hepub Hlive r. subst r.
  destruct s as [[next locs hist] a v]. cbn in Hv, Hepub, Hlive. subst v.
  unfold published in Hlive. injection Hlive as Hb Hr.
  unfold initialiseBook, destroyCurrentBook, ePub, renderTo, fresh, request,
    try_catch_finally, bind, get, ret, throw.
  destruct a as [[b|] [rd|] ? ? ? ? ? ? ? ? ? ? ? ?]; cbn in Hb, Hr; cbn;
    rewrite ?Hrd, ?Hbd; cbn; rewrite ?Hrd, ?Hbd; cbn; rewrite Hepub; cbn;
    rewrite ?Hrd, ?Hbd; cbn; rewrite ?Hrd, ?Hbd; cbn;
    (split; [reflexivity|]); (split; [reflexivity|]); (split; [reflexivity|]);
    unfold live_books, live_renditions in *;
    (split; [rewrite !fold_left_app, Hb; cbn; rewrite ?Nat.eqb_refl; reflexivity|]);
    (split; [rewrite !fold_left_app, Hr; cbn; rewrite ?Nat.eqb_refl; reflexivity|]);
    repeat split; discriminate.
Qed.

(** C1, the code at a failing input.  In the first load of a mounted, empty
    component, let the engine construct the book (handle 0) and the
    rendition (handle 1) and reject the initial display.  When
    [initialiseBook] returns, the derived fields are reset and the error
    message is set, but the new book and rendition are still published by
    the component state and still live in the engine: the [catch] block
    calls the [destroyCurrentBook] of the render that started the load,
    whose [book] and [rendition] are [null]. *)
Theorem initialiseBook_failed_display_leaves_session_live
  (E : Behaviour) (source : Source) (name : jsstring) :
  rejects E (EPub 0 source) = false ->
  rejects E (RenderTo 0 1) = false ->
  (forall percent, rejects E (ThemesFontSize 1 percent) = false) ->
  rejects E (Display 1 None) = true ->
  let r := initialiseBook E initial_state source name initial_sys in
  fst r = Normal tt /\
  book (ui (snd r)) = Some 0 /\
  rendition (ui (snd r)) = Some 1 /\
  live_books (history (engine (snd r))) = [0] /\
  live_renditions (history (engine (snd r))) = [1] /\
  toc (ui (snd r)) = [] /\
  progress (ui (snd r)) = zero /\
  currentChapter (ui (snd r)) = [] /\
  activeHref (ui (snd r)) = [] /\
  fileName (ui (snd r)) = [] /\
  error (ui (snd r)) = Some LOAD_ERROR_MESSAGE /\
  loading (ui (snd r)) = false.
Proof.
  intros H1 H2 H3 H4 r. subst r.
  unfold initialiseBook, destroyCurrentBook, ePub, renderTo, fresh, request,
    try_catch_finally, bind, get, ret, throw.
  cbn. rewrite H1. cbn. rewrite H2. cbn. rewrite H3. cbn. rewrite H4. cbn.
  repeat split.
Qed.

Lemma initialiseBook_failed_display_leaves_session_live_witness :
  let r := initialiseBook (rejecting (is_initial_display 1)) initial_state
             (Buffer (file_bytes some_file)) (file_name some_file) initial_sys in
  book (ui (snd r)) = Some 0 /\ rendition (ui (snd r)) = Some 1 /\
  live_books (history (engine (snd r))) = [0] /\
  live_renditions (history (engine (snd r))) = [1].
Proof.
  intros r.
  pose proof (initialiseBook_failed_display_leaves_session_live
                (rejecting (is_initial_display 1)) (Buffer (file_bytes some_file))
                (file_name some_file) eq_refl eq_refl (fun _ => eq_refl) eq_refl)
    as [_ [Hb [Hr [Hlb [Hlr _]]]]].
  repeat split; assumption.
Defined.

(** In a load whose captured session is [b] and [r] and whose destroy
    requests resolve, the handler sends the destruction of the rendition,
    then the destruction of the book, then the construction of the new
    book.  (The requests of the handler alone: those that the cleanup of
    the teardown effect adds during such a load are not in the model.) *)
Lemma initialiseBook_destroys_before_constructing
  (E : Behaviour) (source : Source) (name : jsstring) (s : Sys) (b r : handle) :
  viewer s = true ->
  book (ui s) = Some b -> rendition (ui s) = Some r ->
  rejects E (RenditionDestroy r) = false ->
  rejects E (BookDestroy b) = false ->
  exists ok tail,
    history (engine (snd (initialiseBook E (ui s) source name s))) =
    history (engine s)
    ++ [mkEntry (RenditionDestroy r) true; mkEntry (BookDestroy b) true;
        mkEntry (EPub (next_handle (engine s)) source) ok]
    ++ tail.
Proof.
  intros Hv Hb Hr Hrd Hbd.
  destruct s as [[next locs hist] a v]. cbn in Hv. subst v.
  destruct a as [ob ord ? ? ? ? ? ? ? ? ? ? ? ?]. cbn in Hb, Hr. subst ob ord.
  unfold initialiseBook, destroyCurrentBook, ePub, renderTo, fresh, request,
    try_catch_finally, locationsLength, bind, get, ret, throw.
  cbn. rewrite Hrd. cbn. rewrite Hbd. cbn.
  repeat
    (match goal with
     | |- context [rejects E ?c] =>
         first [ rewrite Hrd | rewrite Hbd | destruct (rejects E c) eqn:? ]
     | |- context [Nat.eqb ?x ?x] => rewrite Nat.eqb_refl
     | |- context [Nat.eqb (parsed_locations E ?x) 0] =>
         destruct (Nat.eqb (parsed_locations E x) 0) eqn:?
     end; cbn);
    rewrite <- ?app_assoc; cbn; do 2 eexists; reflexivity.
Qed.

(** C2, the code at a failing input.  Two files are opened one after the
    other and the engine throws in the first load after it has constructed
    book 0 and rendition 1 (at [themes.fontSize], before the session is
    published).  The [catch] block has nothing to destroy and session 0/1
    stays attached.  The second load finds no session published, destroys
    nothing and constructs session 2/3 next to it: two books and two
    renditions are live at once.  Neither load starts from a published
    session, so the cleanup that the teardown effect holds during them is
    the one of a render without a session, which destroys nothing. *)
Theorem failed_load_leaves_two_sessions_live :
  let load := FilesSelected [some_file] in
  let a1 := run (rejecting (is_font_size 1)) [load] in
  let a2 := run (rejecting (is_font_size 1)) [load; load] in
  published (ui a1) = ([], []) /\
  live_books (history (engine a1)) = [0] /\
  live_renditions (history (engine a1)) = [1] /\
  published (ui a2) = ([2], [3]) /\
  live_books (history (engine a2)) = [0; 2] /\
  live_renditions (history (engine a2)) = [1; 3] /\
  never_two_sessions (history (engine a2)) = false.
Proof.
  vm_compute. repeat split.
Qed.

(* ================================================================= *)
(** * More on flattening and chapter resolution *)

(** X1. Flattening distributes over the concatenation of sibling lists:
    the entries of the first list, with their subtrees, come before those of
    the second, at the same depth. *)
Theorem flatten_app (items1 items2 : list NavItem) (d : nat) :
  flatten (items1 ++ items2) d = flatten items1 d ++ flatten items2 d.
Proof.
  unfold flatten at 1. rewrite fold_left_app.
  fold (flatten items1 d). apply fold_left_flatten_reducer.
Qed.

Lemma split_head_app (sep : N) (l fragment : jsstring) :
  ~ In sep l -> split_head sep (l ++ sep :: fragment) = l.
Proof.
  induction l as [|x l IH]; intros Hno; simpl.
  - now rewrite N.eqb_refl.
  - destruct (N.eqb_spec x sep) as [->|Hx]; [simpl in Hno; tauto|].
    f_equal. apply IH. simpl in Hno. tauto.
Qed.

Lemma normalizeHref_drop_fragment (h fragment : jsstring) :
  h <> [] -> ~ In HASH h ->
  normalizeHref (Some (h ++ HASH :: fragment)) = h.
Proof.
  intros Hne Hno. unfold normalizeHref.
  destruct h as [|c h]; [congruence|].
  change (truthy ((c :: h) ++ HASH :: fragment)) with true. cbv iota.
  now apply split_head_app.
Qed.

(** X2. The fragment of a locator plays no part in chapter resolution:
    a locator with a non-empty document part resolves to the same title with
    any fragment as with none.  A locator that is only a fragment behaves as
    the empty document part: it resolves to the title of the first entry
    whose own locator has an empty document part, if there is one. *)
Theorem resolveChapterTitle_ignores_fragment
  (entries : list TocEntry) (h fragment : jsstring) :
  (h <> [] -> ~ In HASH h ->
     resolveChapterTitle entries (Some (h ++ HASH :: fragment)) =
     resolveChapterTitle entries (Some h)) /\
  resolveChapterTitle entries (Some (HASH :: fragment)) =
    match find (fun e => eqb (normalizeHref (Some (toc_href e))) []) entries with
    | Some e => trim (toc_label e)
    | None => []
    end.
Proof.
  split.
  - intros Hne Hno. unfold resolveChapterTitle.
    rewrite normalizeHref_drop_fragment, normalizeHref_fixed by assumption.
    destruct h as [|c h]; [congruence|]. reflexivity.
  - unfold resolveChapterTitle. cbn [truthy negb orb].
    destruct entries as [|e entries]; [reflexivity|].
    cbn [length Nat.eqb].
    change (normalizeHref (Some (HASH :: fragment))) with (@nil N).
    destruct (find _ (e :: entries)); [apply or_else_empty | reflexivity].
Qed.

Lemma resolveChapterTitle_ignores_fragment_witness :
  let ch1 := mkTocEntry (mkNavItem (str "c") (str "b.xhtml#x") (str "Ch1") None) 0 in
  let top := mkTocEntry (mkNavItem (str "t") (str "#top") (str "Top") None) 0 in
  resolveChapterTitle [ch1; top] (Some (str "b.xhtml" ++ HASH :: str "y")) =
    resolveChapterTitle [ch1; top] (Some (str "b.xhtml")) /\
  resolveChapterTitle [ch1; top] (Some (str "#anywhere")) = str "Top".
Proof.
  intros ch1 top. split.
  - apply (proj1 (resolveChapterTitle_ignores_fragment [ch1; top]
                    (str "b.xhtml") (str "y"))).
    + discriminate.
    + vm_compute. intuition discriminate.
  - exact (proj2 (resolveChapterTitle_ignores_fragment [ch1; top] [] (str "anywhere"))).
Defined.

(** ** Trimming *)

Lemma trimStart_head (s : jsstring) (c : N) (r : jsstring) :
  trimStart s = c :: r -> is_whitespace c = false.
Proof.
  induction s as [|x s IH]; simpl; [discriminate|].
  destruct (is_whitespace x) eqn:Hx; [exact IH|].
  intros [= <- _]. exact Hx.
Qed.

Lemma trimStart_suffix (s : jsstring) :
  exists ws, s = ws ++ trimStart s /\ forallb is_whitespace ws = true.
Proof.
  induction s as [|x s [ws [IH Hws]]]; simpl.
  - exists []. auto.
  - destruct (is_whitespace x) eqn:Hx.
    + exists (x :: ws). simpl. rewrite Hx, Hws. split; [congruence|reflexivity].
    + exists []. auto.
Qed.

Lemma trimStart_fixed (c : N) (r : jsstring) :
  is_whitespace c = false -> trimStart (c :: r) = c :: r.
Proof. intros H. simpl. now rewrite H. Qed.

(** A trimmed string is empty or has no white space at either end. *)
Lemma trim_ends (s : jsstring) :
  trim s = [] \/
  (is_whitespace (hd 0%N (trim s)) = false /\
   is_whitespace (last (trim s) 0%N) = false).
Proof.
  unfold trim, trimEnd.
  destruct (trimStart s) as [|c r] eqn:Hs; [left; reflexivity|].
  apply trimStart_head in Hs.
  destruct (trimStart (rev (c :: r))) as [|z t] eqn:Ht; [left; reflexivity|].
  right. split.
  - destruct (trimStart_suffix (rev (c :: r))) as [ws [Hrev Hws]].
    rewrite Ht in Hrev. apply (f_equal (@rev N)) in Hrev.
    rewrite rev_involutive, rev_app_distr in Hrev.
    destruct (rev (z :: t)) as [|y u] eqn:Hu.
    + apply (f_equal (@length N)) in Hu. rewrite length_rev in Hu. discriminate.
    + simpl in Hrev. injection Hrev as <- _. exact Hs.
  - apply trimStart_head in Ht. simpl rev.
    rewrite last_last. exact Ht.
Qed.

Lemma trim_idempotent (s : jsstring) : trim (trim s) = trim s.
Proof.
  destruct (trim_ends s) as [H | [Hhd Hlast]]; [now rewrite H|].
  destruct (trim s) as [|c r] eqn:Ht; [reflexivity|].
  simpl in Hhd. unfold trim. rewrite trimStart_fixed by exact Hhd.
  unfold trimEnd.
  destruct (rev (c :: r)) as [|z t] eqn:Hr.
  - apply (f_equal (@length N)) in Hr. rewrite length_rev in Hr. discriminate.
  - assert (Hz : z = last (c :: r) 0%N).
    { rewrite <- (rev_involutive (c :: r)), Hr. simpl. now rewrite last_last. }
    rewrite trimStart_fixed by (rewrite Hz; exact Hlast).
    rewrite <- Hr. apply rev_involutive.
Qed.

(** X3. What the component shows as a chapter title has no white space at
    either end: the resolved title is empty or a string that starts and ends
    with a character that is not white space, and the title of a row of the
    chapter list always is such a string. Trimming a resolved title again
    changes nothing. *)
Theorem titles_are_trimmed (entries : list TocEntry) (href : option jsstring)
                           (item : TocEntry) :
  let title := resolveChapterTitle entries href in
  (title = [] \/
   (is_whitespace (hd 0%N title) = false /\ is_whitespace (last title 0%N) = false)) /\
  trim title = title /\
  row_title item <> [] /\
  is_whitespace (hd 0%N (row_title item)) = false /\
  is_whitespace (last (row_title item) 0%N) = false.
Proof.
  assert (Hres : resolveChapterTitle entries href = []
                 \/ exists e, resolveChapterTitle entries href = trim (toc_label e)).
  { unfold resolveChapterTitle. destruct (_ || _); [now left|].
    destruct (find _ entries) as [e|]; [|now left].
    right. exists e. apply or_else_empty. }
  cbn zeta. split; [|split; [|split]].
  - destruct Hres as [-> | [e ->]]; [now left | apply trim_ends].
  - destruct Hres as [-> | [e ->]]; [reflexivity | apply trim_idempotent].
  - unfold row_title, or_else. destruct (trim (toc_label item)); discriminate.
  - unfold row_title, or_else.
    destruct (trim_ends (toc_label item)) as [-> | H]; [split; reflexivity|].
    destruct (trim (toc_label item)) eqn:Ht; [split; reflexivity|]. exact H.
Qed.

(** X4. The resolved font stack is trimmed: trimming it again changes
    nothing, whichever option is selected and whatever the custom text. *)
Theorem activeFontStack_trimmed (fontChoice customFont : jsstring) :
  trim (activeFontStack fontChoice customFont) = activeFontStack fontChoice customFont.
Proof.
  unfold activeFontStack. destruct (eqb fontChoice CUSTOM_FONT_ID).
  - unfold or_else. destruct (truthy (trim customFont)).
    + apply trim_idempotent.
    + reflexivity.
  - destruct (find _ FONT_OPTIONS) as [option|] eqn:Hfind; [|reflexivity].
    apply find_some in Hfind as [Hin _]. simpl in Hin.
    repeat (destruct Hin as [<- | Hin]; [reflexivity|]). contradiction.
Qed.

(* ================================================================= *)
(** * The rows of the chapter list *)

Lemma to_uint_of_uint (d : Decimal.uint) : Numeral.to_uint (Numeral.of_uint d) = Some d.
Proof. induction d; simpl; try rewrite IHd; reflexivity. Qed.

Lemma of_uint_digits (d : Decimal.uint) : forallb is_digit (Numeral.of_uint d) = true.
Proof. induction d; simpl; try rewrite IHd; reflexivity. Qed.

Lemma of_uint_inj (d d' : Decimal.uint) :
  Numeral.of_uint d = Numeral.of_uint d' -> d = d'.
Proof.
  intros H. apply (f_equal Numeral.to_uint) in H.
  rewrite !to_uint_of_uint in H. congruence.
Qed.

Lemma String_of_nat_inj (n n' : nat) : String_of_nat n = String_of_nat n' -> n = n'.
Proof. intros H. apply of_uint_inj in H. now apply DecimalNat.Unsigned.to_uint_inj. Qed.

Lemma nat_of_String_of_nat (n : nat) : nat_of_String (String_of_nat n) = Some n.
Proof.
  unfold nat_of_String, String_of_nat. rewrite to_uint_of_uint. simpl.
  now rewrite DecimalNat.Unsigned.of_to.
Qed.

Lemma to_uint_not_nil (n : nat) : Nat.to_uint n <> Decimal.Nil.
Proof.
  intros Hn. pose proof (DecimalNat.Unsigned.of_to n) as H.
  rewrite Hn in H. cbv in H. subst n. discriminate.
Qed.

Lemma String_of_nat_nonempty (n : nat) : String_of_nat n <> [].
Proof.
  unfold String_of_nat. intros H.
  assert (Hn : Nat.to_uint n = Decimal.Nil) by (apply of_uint_inj; exact H).
  now apply to_uint_not_nil in Hn.
Qed.

Lemma nat_of_String_leading_zeros (k : nat) (s : jsstring) :
  nat_of_String (repeat ZERO k ++ s) = nat_of_String s.
Proof.
  induction k as [|k IH]; [reflexivity|].
  unfold nat_of_String in *. cbn [repeat app]. cbn [Numeral.to_uint].
  destruct (Numeral.to_uint (repeat ZERO k ++ s)) as [d|] eqn:Hd;
    destruct (Numeral.to_uint s) as [d'|] eqn:Hd'; simpl in *; try congruence.
  change ZERO with 48%N. cbv iota. simpl. exact IH.
Qed.

(** X5. The ordinal of a row is its position counted from one, written in
    decimal with at least two digits: it consists of digits only, reads back
    as the index plus one, and no two rows share an ordinal. *)
Theorem row_ordinal_reads_back (index : nat) :
  nat_of_String (row_ordinal index) = Some (index + 1) /\
  2 <= length (row_ordinal index) /\
  forallb is_digit (row_ordinal index) = true /\
  (index < 9 -> row_ordinal index = ZERO :: String_of_nat (index + 1)) /\
  (9 <= index -> row_ordinal index = String_of_nat (index + 1)) /\
  (forall other, row_ordinal index = row_ordinal other -> index = other).
Proof.
  assert (Hread : forall i, nat_of_String (row_ordinal i) = Some (i + 1)).
  { intros i. unfold row_ordinal, padStart.
    now rewrite nat_of_String_leading_zeros, nat_of_String_of_nat. }
  assert (Hlen : forall n, n < 10 -> length (String_of_nat n) = 1).
  { intros n Hn. do 10 (destruct n as [|n]; [reflexivity|]). lia. }
  assert (Hlen2 : forall n, 10 <= n -> 2 <= length (String_of_nat n)).
  { intros n Hn. unfold String_of_nat.
    destruct (Nat.to_uint n) as [|d|d|d|d|d|d|d|d|d|d] eqn:Hu;
      try (destruct d; simpl; try lia;
           apply (f_equal Nat.of_uint) in Hu; rewrite DecimalNat.Unsigned.of_to in Hu;
           cbv in Hu; lia).
    now apply to_uint_not_nil in Hu. }
  split; [apply Hread|]. split; [|split; [|split; [|split]]].
  - unfold row_ordinal, padStart. rewrite length_app, repeat_length. lia.
  - unfold row_ordinal, padStart. rewrite forallb_app. apply andb_true_iff. split.
    + generalize (2 - length (String_of_nat (index + 1))).
      induction n; simpl; auto.
    + apply of_uint_digits.
  - intros Hi. unfold row_ordinal, padStart. rewrite Hlen by lia. reflexivity.
  - intros Hi. unfold row_ordinal, padStart.
    pose proof (Hlen2 (index + 1) ltac:(lia)) as H2.
    replace (2 - length (String_of_nat (index + 1))) with 0 by lia. reflexivity.
  - intros other H. apply (f_equal nat_of_String) in H.
    rewrite !Hread in H. injection H. lia.
Qed.

Lemma row_ordinal_reads_back_witness :
  row_ordinal 0 = str "01" /\ row_ordinal 8 = str "09" /\
  row_ordinal 9 = str "10" /\ row_ordinal 122 = str "123".
Proof.
  split; [|split; [|split]].
  - exact (proj1 (proj2 (proj2 (proj2 (row_ordinal_reads_back 0)))) ltac:(lia)).
  - exact (proj1 (proj2 (proj2 (proj2 (row_ordinal_reads_back 8)))) ltac:(lia)).
  - exact (proj1 (proj2 (proj2 (proj2 (proj2 (row_ordinal_reads_back 9))))) ltac:(lia)).
  - exact (proj1 (proj2 (proj2 (proj2 (proj2 (row_ordinal_reads_back 122))))) ltac:(lia)).
Defined.

(** The part of a string after its last [-]. *)
Lemma suffix_after_minus (a b d1 d2 : jsstring) :
  forallb is_digit d1 = true -> forallb is_digit d2 = true ->
  a ++ MINUS :: d1 = b ++ MINUS :: d2 -> d1 = d2.
Proof.
  intros H1 H2 H.
  apply (f_equal (@rev N)) in H. rewrite !rev_app_distr in H. simpl in H.
  rewrite <- !app_assoc in H. simpl in H.
  assert (Hd : forall d, forallb is_digit d = true -> forallb is_digit (rev d) = true).
  { intros d Hd. apply forallb_forall. intros x Hx. apply in_rev in Hx.
    rewrite forallb_forall in Hd. now apply Hd. }
  apply Hd in H1. apply Hd in H2.
  rewrite <- (rev_involutive d1), <- (rev_involutive d2). f_equal.
  revert H H1 H2. generalize (rev d1) (rev d2) (rev a) (rev b). clear.
  induction l as [|x l IH]; intros [|y l'] ra rb H H1 H2; simpl in *.
  - reflexivity.
  - injection H as <- _. discriminate.
  - injection H as -> _. discriminate.
  - injection H as <- H. f_equal.
    apply andb_true_iff in H1 as [_ H1]. apply andb_true_iff in H2 as [_ H2].
    eapply IH; eassumption.
Qed.

Lemma row_key_index (item item' : TocEntry) (index index' : nat) :
  row_key item index = row_key item' index' -> index = index'.
Proof.
  unfold row_key. intros H. apply String_of_nat_inj.
  eapply suffix_after_minus; [apply of_uint_digits | apply of_uint_digits | exact H].
Qed.

Lemma row_keys_from_index (items : list TocEntry) :
  forall start k, In k (row_keys_from start items) ->
                  exists item index, start <= index /\ k = row_key item index.
Proof.
  induction items as [|item rest IH]; intros start k; simpl; [tauto|].
  intros [<- | H].
  - exists item, start. auto.
  - apply IH in H as [item' [index [Hle ->]]]. exists item', index. split; [lia|reflexivity].
Qed.

(** X6. The keys of the rows of the chapter list are pairwise distinct,
    whatever the identifiers and locators of the entries (also when they are
    empty or repeated): two rows have the same key only at the same index. *)
Theorem row_keys_distinct (items : list TocEntry) :
  NoDup (row_keys items) /\
  length (row_keys items) = length items /\
  (forall item item' index index',
     row_key item index = row_key item' index' -> index = index').
Proof.
  split; [|split].
  - unfold row_keys. generalize 0.
    induction items as [|item rest IH]; intros start; simpl; constructor.
    + intros Hin. apply row_keys_from_index in Hin as [item' [index [Hle Hk]]].
      apply row_key_index in Hk. lia.
    + apply IH.
  - unfold row_keys. generalize 0.
    induction items as [|item rest IH]; intros start; simpl; [reflexivity|].
    now rewrite IH.
  - apply row_key_index.
Qed.

Lemma row_keys_distinct_witness :
  let twin := mkTocEntry (mkNavItem [] [] (str "Untitled") None) 0 in
  NoDup (row_keys [twin; twin; twin]) /\ 3 = 3.
Proof.
  intros twin. split.
  - exact (proj1 (row_keys_distinct [twin; twin; twin])).
  - exact (proj2 (proj2 (row_keys_distinct [twin])) twin twin 3 3 eq_refl).
Defined.

(* ================================================================= *)
(** * Highlight, title and navigation *)

(** X7. A click on a row of the chapter list, with a rendition present,
    marks that row active at once, together with exactly the rows whose
    locator has the same document part, and asks the engine to display the
    row's full locator, fragment included; title and progress wait for the
    relocation event.  Without a rendition the click changes nothing. *)
Theorem tocClick_activates_row (E : Behaviour) (s : Sys) (item : TocEntry) :
  let href := toc_href item in
  let s' := step E s (TocClicked href) in
  (forall r, rendition (ui s) = Some r ->
     row_isActive (ui s') item = true /\
     (forall other,
        row_isActive (ui s') other =
        eqb (normalizeHref (Some (toc_href other))) (normalizeHref (Some href))) /\
     history (engine s') =
       history (engine s)
       ++ [mkEntry (Display r (Some href)) (negb (rejects E (Display r (Some href))))] /\
     currentChapter (ui s') = currentChapter (ui s) /\
     progress (ui s') = progress (ui s)) /\
  (rendition (ui s) = None -> s' = s).
Proof.
  intros href s'. subst s'. unfold step, dispatch, goTo, bind, get.
  destruct s as [eng a v]. cbn [ui]. split.
  - intros r Hr. rewrite Hr. unfold request, bind, setActiveHref, modify_ui,
      modify_engine, ret, throw. cbn [ui engine viewer fst snd].
    destruct (negb (rejects E (Display r (Some href)))); cbn;
      unfold row_isActive; cbn; rewrite eqb_refl; repeat split.
  - intros ->. reflexivity.
Qed.

Lemma tocClick_activates_row_witness :
  let E := rejecting (fun _ => false) in
  let item := mkTocEntry (mkNavItem (str "c2") (str "ch2.xhtml#s1") (str "Two") None) 0 in
  let opened := mkAppState (Some 0) (Some 1) [] zero (of_Z 110) light [] []
                           false None [] [] (of_Z 150) [] in
  let s := mkSys Engine.initial opened true in
  row_isActive (ui (step E s (TocClicked (toc_href item)))) item = true /\
  step E initial_sys (TocClicked (toc_href item)) = initial_sys.
Proof.
  intros E item opened s. split.
  - exact (proj1 (proj1 (tocClick_activates_row E s item) 1 eq_refl)).
  - exact (proj2 (tocClick_activates_row E initial_sys item) eq_refl).
Defined.

Lemma resolveChapterTitle_by_highlight (entries : list TocEntry) (h : jsstring) :
  ~ In HASH h -> h <> [] ->
  resolveChapterTitle entries (Some h) =
  match find (fun item => eqb (normalizeHref (Some (toc_href item))) h) entries with
  | Some item => trim (toc_label item)
  | None => []
  end.
Proof.
  intros Hno Hne. unfold resolveChapterTitle.
  rewrite normalizeHref_fixed by exact Hno.
  destruct h as [|c h]; [congruence|]. cbn [truthy negb orb].
  destruct entries as [|e rest]; [reflexivity|]. cbn [length Nat.eqb].
  destruct (find _ (e :: rest)); [apply or_else_empty | reflexivity].
Qed.

(** X8. After a relocation event whose start locator has a non-empty
    document part, the stored chapter title is the trimmed label of the first
    highlighted row of the chapter list, and empty when no row is
    highlighted.  When the document part is empty (no locator, or only a
    fragment) the stored title is empty although the rows whose locator has
    an empty document part are highlighted. *)
Theorem relocated_title_follows_highlight
  (E : Behaviour) (s : Sys) (b r : handle) (start : LocationStart) :
  book (ui s) = Some b -> rendition (ui s) = Some r ->
  let s' := step E s (RelocatedFired (Some (mkLocation (Some start)))) in
  let rows := tocItems (toc (ui s')) in
  toc (ui s') = toc (ui s) /\
  activeHref (ui s') = normalizeHref (start_href start) /\
  (normalizeHref (start_href start) <> [] ->
     currentChapter (ui s') =
       match find (row_isActive (ui s')) rows with
       | Some item => trim (toc_label item)
       | None => []
       end) /\
  (normalizeHref (start_href start) = [] ->
     currentChapter (ui s') = [] /\
     forall item,
       row_isActive (ui s') item = eqb (normalizeHref (Some (toc_href item))) []).
Proof.
  intros Hb Hr s' rows. subst s' rows.
  unfold step, dispatch, bind, get. destruct s as [eng a v]. cbn [ui] in *.
  rewrite Hb, Hr. unfold onRelocated, locationsLength, bind, get, ret,
    setActiveHref, setCurrentChapter, setProgress, modify_ui.
  cbn [ui engine viewer fst snd].
  pose proof (normalizeHref_no_hash (start_href start)) as Hno.
  set (h := normalizeHref (start_href start)) in *.
  destruct (Nat.eqb (locations_length eng b) 0);
    cbn [snd ui toc activeHref currentChapter];
    (split; [reflexivity|]); (split; [reflexivity|]); split;
    try (intros Hne; unfold row_isActive; cbn [activeHref];
         now apply resolveChapterTitle_by_highlight);
    intros He; rewrite He; (split; [reflexivity|]);
    intros item; unfold row_isActive; reflexivity.
Qed.

Lemma relocated_title_follows_highlight_witness :
  let E := rejecting (fun _ => false) in
  let one := mkNavItem (str "c1") (str "ch1.xhtml") (str " One ") None in
  let two := mkNavItem (str "c2") (str "ch2.xhtml#s1") (str "Two") None in
  let opened := mkAppState (Some 0) (Some 1) [one; two] zero (of_Z 110) light [] []
                           false None [] [] (of_Z 150) [] in
  let s := mkSys Engine.initial opened true in
  let at_two := mkLocationStart (Some (str "ch2.xhtml#p9")) (str "epubcfi(/6/6!)") in
  let nowhere := mkLocationStart None (str "epubcfi(/6/2!)") in
  currentChapter (ui (step E s (RelocatedFired (Some (mkLocation (Some at_two))))))
    = str "Two" /\
  currentChapter (ui (step E s (RelocatedFired (Some (mkLocation (Some nowhere))))))
    = [].
Proof.
  intros E one two opened s at_two nowhere. split.
  - exact (proj1 (proj2 (proj2 (relocated_title_follows_highlight E s at_two
                                  (b := 0) (r := 1) eq_refl eq_refl)))
             ltac:(discriminate)).
  - exact (proj1 (proj2 (proj2 (proj2 (relocated_title_follows_highlight E s nowhere
                                         (b := 0) (r := 1) eq_refl eq_refl)))
                    eq_refl)).
Defined.

(** X9. A progress change while the slider is enabled (a book with a
    location index, not loading) and a rendition is present stores the raw
    slider value and asks the engine to display the position that the index
    gives for the value divided by 100, leaving locator and title as they
    were.  While no location index is ready it changes nothing. *)
Theorem progressChange_follows_slider (E : Behaviour) (s : Sys) (value : number) :
  let s' := step E s (ProgressChanged value) in
  (sliderDisabled s = false ->
   forall r, rendition (ui s) = Some r ->
   exists b,
     book (ui s) = Some b /\
     progress (ui s') = value /\
     history (engine s') =
       history (engine s)
       ++ [mkEntry (Display r (Some (cfiFromPercentage E b (div value hundred))))
             (negb (rejects E
                (Display r (Some (cfiFromPercentage E b (div value hundred))))))] /\
     activeHref (ui s') = activeHref (ui s) /\
     currentChapter (ui s') = currentChapter (ui s)) /\
  (locationsReady s = false -> s' = s).
Proof.
  intros s'. subst s'. unfold step, dispatch, handleProgressChange, bind, get.
  destruct s as [eng a v]. unfold sliderDisabled, locationsReady.
  cbn [ui engine]. split.
  - intros Hen r Hr. apply orb_false_iff in Hen as [Hready _].
    apply negb_false_iff in Hready.
    destruct (book a) as [b|]; [|discriminate]. exists b. rewrite Hr.
    apply Nat.ltb_lt in Hready.
    unfold locationsLength, bind, get, ret. cbn [engine].
    destruct (Nat.eqb_spec (locations_length eng b) 0) as [H0|_]; [lia|].
    unfold request, bind, setProgress, modify_ui, modify_engine, ret, throw.
    cbn [ui engine viewer fst snd].
    destruct (negb (rejects E _)); cbn; repeat split.
  - intros Hready. destruct (book a) as [b|]; [|reflexivity].
    destruct (rendition a); [|reflexivity].
    unfold locationsLength, bind, get, ret. cbn [engine].
    apply Nat.ltb_ge in Hready.
    destruct (Nat.eqb_spec (locations_length eng b) 0) as [_|H0]; [reflexivity|lia].
Qed.

Lemma progressChange_follows_slider_witness :
  let E := rejecting (fun _ => false) in
  let opened := mkAppState (Some 0) (Some 1) [] zero (of_Z 110) light [] []
                           false None [] [] (of_Z 150) [] in
  let ready := mkSys (mkState 2 [(0, 12)] []) opened true in
  progress (ui (step E ready (ProgressChanged (of_Z 40)))) = of_Z 40 /\
  step E initial_sys (ProgressChanged (of_Z 40)) = initial_sys.
Proof.
  intros E opened ready. split.
  - destruct (proj1 (progressChange_follows_slider E ready (of_Z 40)) eq_refl 1 eq_refl)
      as [b [_ [Hp _]]]. exact Hp.
  - exact (proj2 (progressChange_follows_slider E initial_sys (of_Z 40)) eq_refl).
Defined.

(* ================================================================= *)
(** * Stepping through a handler *)

Section Wp.

Variable E : Behaviour.

Lemma wp_snd (A : Type) (m : M A) (P : Sys -> Prop) (s : Sys) :
  wp m (fun _ s' => P s') s -> P (snd (m s)).
Proof. exact (fun H => H). Qed.

Lemma wp_both (A : Type) (m : M A) (Q : Completion A -> Sys -> Prop) (s : Sys) :
  wp m Q s -> Q (fst (m s)) (snd (m s)).
Proof. exact (fun H => H). Qed.

Lemma wp_ret (A : Type) (a : A) (Q : Completion A -> Sys -> Prop) (s : Sys) :
  Q (Normal a) s -> wp (ret a) Q s.
Proof. exact (fun H => H). Qed.

Lemma wp_throw (A : Type) (c : Call) (Q : Completion A -> Sys -> Prop) (s : Sys) :
  Q (Thrown c) s -> wp (throw c) Q s.
Proof. exact (fun H => H). Qed.

Lemma wp_get (Q : Completion Sys -> Sys -> Prop) (s : Sys) :
  Q (Normal s) s -> wp get Q s.
Proof. exact (fun H => H). Qed.

Lemma wp_modify_ui (f : AppState -> AppState) (Q : Completion unit -> Sys -> Prop)
                   (s : Sys) :
  Q (Normal tt) (mkSys (engine s) (f (ui s)) (viewer s)) -> wp (modify_ui f) Q s.
Proof. exact (fun H => H). Qed.

Lemma wp_bind (A B : Type) (m : M A) (k : A -> M B)
              (Q : Completion B -> Sys -> Prop) (s : Sys) :
  wp m (fun c s1 => match c with
                    | Normal a => wp (k a) Q s1
                    | Thrown e => Q (Thrown e) s1
                    end) s ->
  wp (bind m k) Q s.
Proof.
  unfold wp, bind. destruct (m s) as [[a|e] s1]; exact (fun H => H).
Qed.

Lemma wp_try_catch_finally (body : M unit) (handler : Call -> M unit) (fin : M unit)
                           (Q : Completion unit -> Sys -> Prop) (s : Sys) :
  wp body
     (fun c s1 =>
        match c with
        | Normal _ =>
            wp fin (fun c3 s3 =>
                      Q (match c3 with Normal _ => Normal tt | Thrown e => Thrown e end)
                        s3) s1
        | Thrown e =>
            wp (handler e)
               (fun c2 s2 =>
                  wp fin (fun c3 s3 =>
                            Q (match c3 with Normal _ => c2 | Thrown e' => Thrown e' end)
                              s3) s2) s1
        end) s ->
  wp (try_catch_finally body handler fin) Q s.
Proof.
  unfold wp, try_catch_finally.
  destruct (body s) as [[[]|e] s1]; cbn [fst snd].
  - destruct (fin s1) as [[[]|e3] s3]; exact (fun H => H).
  - destruct (handler e s1) as [c2 s2]; cbn [fst snd].
    destruct (fin s2) as [[[]|e3] s3]; exact (fun H => H).
Qed.

Lemma wp_request (c : Call) (Q : Completion unit -> Sys -> Prop) (s : Sys) :
  (rejects E c = false ->
   Q (Normal tt)
     (mkSys (mkState (next_handle (engine s)) (effect E c (locations (engine s)))
                     (history (engine s) ++ [mkEntry c true]))
            (ui s) (viewer s))) ->
  (rejects E c = true ->
   Q (Thrown c)
     (mkSys (mkState (next_handle (engine s)) (locations (engine s))
                     (history (engine s) ++ [mkEntry c false]))
            (ui s) (viewer s))) ->
  wp (request E c) Q s.
Proof.
  intros Hok Hrej. unfold wp, request, bind, modify_engine, ret, throw.
  destruct (rejects E c); cbn; auto.
Qed.

Lemma wp_fresh (Q : Completion handle -> Sys -> Prop) (s : Sys) :
  Q (Normal (next_handle (engine s)))
    (mkSys (mkState (S (next_handle (engine s))) (locations (engine s))
                    (history (engine s)))
           (ui s) (viewer s)) ->
  wp fresh Q s.
Proof. exact (fun H => H). Qed.

Lemma wp_locationsLength (b : handle) (Q : Completion nat -> Sys -> Prop) (s : Sys) :
  Q (Normal (locations_length (engine s) b)) s -> wp (locationsLength b) Q s.
Proof. exact (fun H => H). Qed.

End Wp.

(** Reduction of the projections of a state that is given by its fields. *)
Ltac wp_simpl :=
  cbv beta iota;
  cbn [engine ui viewer next_handle locations history effect
       book rendition toc progress fontSize theme currentChapter fileName
       loading error fontChoice customFont lineSpacing activeHref
       fst snd negb]
  .

(** A rejected teardown request contradicts the assumption that the
    teardown resolves. *)
Ltac wp_absurd :=
  match goal with
  | H : forall r, ?x = Some r -> rejects ?E (RenditionDestroy r) = false,
    H1 : ?x = Some ?y, H2 : rejects ?E (RenditionDestroy ?y) = true |- _ =>
      rewrite (H y H1) in H2; discriminate H2
  | H : forall b, ?x = Some b -> rejects ?E (BookDestroy b) = false,
    H1 : ?x = Some ?y, H2 : rejects ?E (BookDestroy ?y) = true |- _ =>
      rewrite (H y H1) in H2; discriminate H2
  | H : forall r, Some ?y = Some r -> rejects ?E (RenditionDestroy r) = false,
    H2 : rejects ?E (RenditionDestroy ?y) = true |- _ =>
      rewrite (H y eq_refl) in H2; discriminate H2
  | H : forall b, Some ?y = Some b -> rejects ?E (BookDestroy b) = false,
    H2 : rejects ?E (BookDestroy ?y) = true |- _ =>
      rewrite (H y eq_refl) in H2; discriminate H2
  | H : forall c, rejects ?E c = false, H2 : rejects ?E _ = true |- _ =>
      rewrite H in H2; discriminate H2
  | H : rejects ?E ?c = false, H2 : rejects ?E ?c = true |- _ =>
      rewrite H in H2; discriminate H2
  end.

(** One step of a handler. *)
Ltac wp_step :=
  lazymatch goal with
  | |- wp (bind _ _) _ _ => apply wp_bind
  | |- wp (ret _) _ _ => apply wp_ret
  | |- wp (throw _) _ _ => apply wp_throw
  | |- wp get _ _ => apply wp_get
  | |- wp (request _ _) _ _ => apply wp_request; intros ?; [|try wp_absurd]
  | |- wp (fresh) _ _ => apply wp_fresh
  | |- wp (locationsLength _) _ _ => apply wp_locationsLength
  | |- wp (try_catch_finally _ _ _) _ _ => apply wp_try_catch_finally
  | |- wp (destroyCurrentBook _ _) _ _ => unfold destroyCurrentBook
  | |- wp (ePub _ _) _ _ => unfold ePub
  | |- wp (renderTo _ _) _ _ => unfold renderTo
  | |- wp (match ?x with Some _ => _ | None => _ end) _ _ => destruct x eqn:?
  | |- wp (if ?b then _ else _) _ _ => destruct b eqn:?
  | |- wp _ _ _ => apply wp_modify_ui
  end; wp_simpl.

Ltac wp_run := repeat wp_step.

(** Steps up to the [try] block. *)
Ltac wp_until_try :=
  repeat (lazymatch goal with
          | |- wp (try_catch_finally _ _ _) _ _ => fail
          | |- wp _ _ _ => wp_step
          end).

(* ================================================================= *)
(** * More on loading a book *)

Lemma try_catch_finally_clears_loading (body : M unit) (handler : Call -> M unit)
                                       (s : Sys) :
  loading (ui (snd (try_catch_finally body handler (setLoading false) s))) = false.
Proof.
  unfold try_catch_finally.
  destruct (body s) as [[[]|c] s1]; cbn; [reflexivity|].
  destruct (handler c s1) as [r s2]; reflexivity.
Qed.

(** X10. Whatever step of a load fails, the loading flag is cleared when
    [initialiseBook] returns, provided the teardown of the previous session
    that precedes the [try] block does not throw. *)
Theorem initialiseBook_clears_loading
  (E : Behaviour) (captured : AppState) (source : Source) (name : jsstring) (s : Sys) :
  viewer s = true ->
  (forall r, rendition captured = Some r -> rejects E (RenditionDestroy r) = false) ->
  (forall b, book captured = Some b -> rejects E (BookDestroy b) = false) ->
  loading (ui (snd (initialiseBook E captured source name s))) = false.
Proof.
  intros Hv Hr Hb. apply wp_snd. unfold initialiseBook.
  destruct s as [eng a v]. cbn [viewer] in Hv. subst v.
  wp_until_try; apply try_catch_finally_clears_loading.
Qed.

Lemma initialiseBook_clears_loading_witness :
  loading (ui (snd (initialiseBook (rejecting (is_initial_display 1)) initial_state
                      (Buffer [80%N; 75%N]) (str "a.epub") initial_sys))) = false.
Proof.
  apply initialiseBook_clears_loading; [reflexivity | discriminate | discriminate].
Defined.

(** X11. When the teardown of the previous rendition throws, the load is
    abandoned before anything is constructed: the exception escapes
    [initialiseBook], the loading flag stays set, no error message is
    stored, the previous book is neither destroyed nor unpublished, and the
    engine has received nothing but the rejected request. *)
Theorem initialiseBook_stuck_when_teardown_throws
  (E : Behaviour) (source : Source) (name : jsstring) (s : Sys) (r : handle) :
  viewer s = true ->
  rendition (ui s) = Some r ->
  rejects E (RenditionDestroy r) = true ->
  let result := initialiseBook E (ui s) source name s in
  fst result = Thrown (RenditionDestroy r) /\
  loading (ui (snd result)) = true /\
  error (ui (snd result)) = None /\
  book (ui (snd result)) = book (ui s) /\
  rendition (ui (snd result)) = Some r /\
  history (engine (snd result)) =
    history (engine s) ++ [mkEntry (RenditionDestroy r) false].
Proof.
  intros Hv Hr Hrej result. subst result.
  destruct s as [eng a v]. cbn [viewer ui] in *. subst v.
  apply (@wp_both unit (initialiseBook E a source name)
           (fun c s' =>
              c = Thrown (RenditionDestroy r) /\
              loading (ui s') = true /\ error (ui s') = None /\
              book (ui s') = book a /\ rendition (ui s') = Some r /\
              history (engine s') = history eng ++ [mkEntry (RenditionDestroy r) false])).
  unfold initialiseBook. destruct a as [ob ord ? ? ? ? ? ? ? ? ? ? ? ?].
  cbn [rendition book] in *. subst ord.
  wp_until_try; try congruence. repeat split.
Qed.

Lemma initialiseBook_stuck_when_teardown_throws_witness :
  let E := rejecting (fun c => match c with RenditionDestroy _ => true | _ => false end) in
  let opened := mkAppState (Some 0) (Some 1) [] zero (of_Z 110) light [] []
                           false None [] [] (of_Z 150) [] in
  let s := mkSys (mkState 2 [(0, 12)] []) opened true in
  loading (ui (snd (initialiseBook E opened (Buffer []) [] s))) = true.
Proof.
  intros E opened s.
  exact (proj1 (proj2 (initialiseBook_stuck_when_teardown_throws E (Buffer []) [] s
                         (r := 1) eq_refl eq_refl eq_refl))).
Defined.

(** X12. A load that starts while no session is published ends in one of
    two ways, whichever request the engine rejects.  Either every step
    resolved: no error is stored, the file name is the name of the file and
    the new book and rendition are published with the table of contents of
    the book.  Or a step threw: the error message is stored, and file name
    and table of contents are empty, so that the header shows its
    placeholders and counts no chapter.  In both cases the loading flag is
    cleared.  (The fields that the relocation listener also writes are left
    out, and so are loads that replace a published session, during which
    the teardown effect runs.) *)
Theorem initialiseBook_outcomes
  (E : Behaviour) (source : Source) (name : jsstring) (s : Sys) :
  viewer s = true ->
  book (ui s) = None ->
  rendition (ui s) = None ->
  let s' := snd (initialiseBook E (ui s) source name s) in
  let nextBook := next_handle (engine s) in
  loading (ui s') = false /\
  ((error (ui s') = None /\
    fileName (ui s') = name /\
    book (ui s') = Some nextBook /\
    rendition (ui s') = Some (S nextBook) /\
    toc (ui s') = navigation_toc E nextBook)
   \/
   (error (ui s') = Some LOAD_ERROR_MESSAGE /\
    fileName (ui s') = [] /\
    toc (ui s') = [] /\
    tocCount (ui s') = 0 /\
    fileNameDisplay (ui s') = str "No book selected yet" /\
    pickerLabel (ui s') = str "Open EPUB")).
Proof.
  intros Hv Hb Hr s' nextBook. subst s' nextBook.
  destruct s as [[next locs hist] a v]. cbn [viewer ui engine next_handle] in *.
  subst v.
  apply (@wp_snd unit (initialiseBook E a source name)
           (fun s' =>
              loading (ui s') = false /\
              ((error (ui s') = None /\ fileName (ui s') = name /\
                book (ui s') = Some next /\ rendition (ui s') = Some (S next) /\
                toc (ui s') = navigation_toc E next)
               \/
               (error (ui s') = Some LOAD_ERROR_MESSAGE /\ fileName (ui s') = [] /\
                toc (ui s') = [] /\ tocCount (ui s') = 0 /\
                fileNameDisplay (ui s') = str "No book selected yet" /\
                pickerLabel (ui s') = str "Open EPUB")))).
  unfold initialiseBook. destruct a as [ob ord ? ? ? ? ? ? ? ? ? ? ? ?].
  cbn [book rendition] in Hb, Hr. subst ob ord.
  wp_run.
  all: (split; [reflexivity|]).
  all: first [ left; repeat split; reflexivity
             | right; repeat split; reflexivity ].
Qed.

Lemma initialiseBook_outcomes_witness :
  let s' := snd (initialiseBook (rejecting (is_initial_display 1)) initial_state
                   (Buffer [80%N; 75%N]) (str "a.epub") initial_sys) in
  error (ui s') = Some LOAD_ERROR_MESSAGE /\ fileName (ui s') = [] /\
  loading (ui s') = false.
Proof.
  intros s'.
  destruct (@initialiseBook_outcomes (rejecting (is_initial_display 1))
              (Buffer [80%N; 75%N]) (str "a.epub") initial_sys eq_refl
              eq_refl eq_refl)
    as [Hl [[He _] | [He [Hf _]]]].
  - vm_compute in He. discriminate He.
  - subst s'. split; [exact He|]. split; [exact Hf | exact Hl].
Defined.

(* ================================================================= *)
(** * One session at a time *)

Lemma live_books_snoc (h : list Entry) (e : Entry) :
  live_books (h ++ [e]) = live_books_step (live_books h) e.
Proof. unfold live_books. now rewrite fold_left_app. Qed.

Lemma live_renditions_snoc (h : list Entry) (e : Entry) :
  live_renditions (h ++ [e]) = live_renditions_step (live_renditions h) e.
Proof. unfold live_renditions. now rewrite fold_left_app. Qed.

Lemma forallb_agree (A : Type) (f g : A -> bool) (l : list A) :
  (forall x, In x l -> f x = g x) -> forallb f l = forallb g l.
Proof.
  induction l as [|x l IH]; intros H; cbn [forallb]; [reflexivity|].
  rewrite (H x) by (left; reflexivity). f_equal. apply IH.
  intros y Hy. apply H. now right.
Qed.

Lemma never_two_sessions_snoc (h : list Entry) (e : Entry) :
  never_two_sessions (h ++ [e]) =
  never_two_sessions h && at_most_one_session (h ++ [e]).
Proof.
  unfold never_two_sessions. rewrite length_app. cbn [length].
  replace (S (length h + 1)) with (S (length h) + 1) by lia.
  rewrite seq_app, forallb_app. cbn [seq forallb]. rewrite andb_true_r.
  f_equal.
  - apply forallb_agree. intros n Hn. apply in_seq in Hn.
    rewrite firstn_app. replace (n - length h) with 0 by lia.
    cbn [firstn]. now rewrite app_nil_r.
  - cbn [Nat.add]. rewrite firstn_all2; [reflexivity|].
    rewrite length_app. cbn [length]. lia.
Qed.

Lemma remove_same (h : handle) : remove h [h] = [].
Proof. unfold remove. cbn [filter]. now rewrite Nat.eqb_refl. Qed.

Lemma remove_nil (h : handle) : remove h [] = [].
Proof. reflexivity. Qed.

(** The bookkeeping of a history that grew by some entries. *)
Ltac exclusive_tac :=
  unfold exclusive in *;
  cbn [engine ui history published book rendition fst snd] in *;
  match goal with
  | H : _ /\ _ /\ _ |- _ =>
      let Hlb := fresh "Hlb" in
      let Hlr := fresh "Hlr" in
      let Hnever := fresh "Hnever" in
      destruct H as (Hlb & Hlr & Hnever);
      rewrite ?never_two_sessions_snoc; unfold at_most_one_session;
      rewrite ?live_books_snoc, ?live_renditions_snoc;
      rewrite ?Hlb, ?Hlr, ?Hnever
  end;
  cbn [live_books_step live_renditions_step entry_call entry_ok];
  rewrite ?remove_same, ?remove_nil;
  cbn [app length Nat.leb andb];
  repeat split; reflexivity.

(** X13. A load that starts while no session is published or live, and
    whose requests all resolve, ends with exactly the new book and the new
    rendition live in the engine and published by the state, and at no
    point of the engine's history are two books or two renditions live.
    (Loads that replace a published session are left out: during them the
    teardown effect runs.) *)
Theorem sessions_exclusive_when_nothing_fails
  (E : Behaviour) (source : Source) (name : jsstring) (s : Sys) :
  (forall c, rejects E c = false) ->
  viewer s = true ->
  book (ui s) = None ->
  rendition (ui s) = None ->
  exclusive s ->
  let s' := snd (initialiseBook E (ui s) source name s) in
  let nextBook := next_handle (engine s) in
  published (ui s') = ([nextBook], [S nextBook]) /\
  live_books (history (engine s')) = [nextBook] /\
  live_renditions (history (engine s')) = [S nextBook] /\
  never_two_sessions (history (engine s')) = true.
Proof.
  intros Hnever Hv Hb Hr Hex s' nextBook. subst s' nextBook.
  destruct s as [[next locs hist] a v]. cbn [viewer ui engine next_handle] in *.
  subst v.
  apply (@wp_snd unit (initialiseBook E a source name)
           (fun s' =>
              published (ui s') = ([next], [S next]) /\
              live_books (history (engine s')) = [next] /\
              live_renditions (history (engine s')) = [S next] /\
              never_two_sessions (history (engine s')) = true)).
  unfold initialiseBook. destruct a as [ob ord ? ? ? ? ? ? ? ? ? ? ? ?].
  cbn [book rendition] in Hb, Hr. subst ob ord.
  wp_run.
  all: (split; [reflexivity|]).
  all: exclusive_tac.
Qed.

Lemma sessions_exclusive_when_nothing_fails_witness :
  let s' := snd (initialiseBook (rejecting (fun _ => false)) initial_state
                   (Buffer (file_bytes some_file)) (file_name some_file)
                   initial_sys) in
  published (ui s') = ([0], [1]) /\
  live_books (history (engine s')) = [0] /\
  live_renditions (history (engine s')) = [1] /\
  never_two_sessions (history (engine s')) = true.
Proof.
  exact (@sessions_exclusive_when_nothing_fails (rejecting (fun _ => false))
           (Buffer (file_bytes some_file)) (file_name some_file) initial_sys
           (fun _ => eq_refl) eq_refl eq_refl eq_refl
           (conj eq_refl (conj eq_refl eq_refl))).
Defined.

(* ================================================================= *)
(** * Typography and file intake *)

(** X14. Typography is independent of the book: no file selection,
    navigation, progress change or relocation event changes font size,
    theme, font choice, custom font or line spacing, whatever the engine
    answers; and the typography and theme controls change no cell of the
    state that belongs to the book being read. *)
Theorem typography_independent_of_book (E : Behaviour) (s : Sys) (ev : Event) :
  (is_typography_event ev = false ->
     typography (ui (step E s ev)) = typography (ui s)) /\
  (is_typography_event ev = true ->
     viewer (step E s ev) = viewer s /\
     reading (ui (step E s ev)) = reading (ui s)).
Proof.
  split.
  - intros Hev. unfold step. apply wp_snd.
    destruct s as [[next locs hist] a v].
    destruct a as [ob ord ? ? ? ? ? ? ? ? ? ? ? ?].
    destruct ev; try discriminate Hev;
      unfold dispatch, handleFileSelection, initialiseBook, goTo,
        goPrevious, goNext, handleProgressChange, onRelocated; wp_run.
    all: try match goal with
             | |- wp (match ?files with [] => _ | _ => _ end) _ _ =>
                 destruct files as [|file rest]; wp_run
             | |- wp (match ?l with mkLocation _ => _ end) _ _ =>
                 destruct l as [[start|]]; wp_run
             end.
    all: reflexivity.
  - intros Hev. destruct s as [eng a v].
    destruct ev; try discriminate Hev; split; reflexivity.
Qed.

Lemma typography_independent_of_book_witness :
  let E := rejecting (is_initial_display 1) in
  let s := step E initial_sys (FontSizeChanged (of_Z 130)) in
  fontSize (ui (step E s (FilesSelected [some_file]))) = of_Z 130 /\
  reading (ui s) = reading initial_state.
Proof.
  intros E s. split.
  - pose proof (proj1 (typography_independent_of_book E s (FilesSelected [some_file]))
                  eq_refl) as H.
    exact (f_equal (fun t => fst (fst (fst (fst t)))) H).
  - exact (proj2 (proj2 (typography_independent_of_book E initial_sys
                           (FontSizeChanged (of_Z 130))) eq_refl)).
Defined.

(** X15. File intake takes the first file only: a drop and a file
    selection do the same, the files after the first are ignored, an empty
    selection changes nothing, and so does any selection while the viewport
    element is not mounted. *)
Theorem file_intake_takes_first_file
  (E : Behaviour) (captured : AppState) (files : list File) (s : Sys) :
  handleDrop E captured files s = handleFileSelection E captured files s /\
  (forall file rest,
     files = file :: rest ->
     handleFileSelection E captured files s =
     initialiseBook E captured (Buffer (file_bytes file)) (file_name file) s) /\
  (files = [] -> handleFileSelection E captured files s = (Normal tt, s)) /\
  (viewer s = false -> handleFileSelection E captured files s = (Normal tt, s)).
Proof.
  split; [|split; [|split]].
  - unfold handleDrop. destruct files; reflexivity.
  - intros file rest ->. reflexivity.
  - intros ->. reflexivity.
  - intros Hv. destruct files as [|file rest]; [reflexivity|].
    unfold handleFileSelection, initialiseBook, bind, get. now rewrite Hv.
Qed.

Lemma file_intake_takes_first_file_witness :
  let E := rejecting (fun _ => false) in
  let other := mkFile (str "other.epub") [1%N] in
  handleFileSelection E initial_state [some_file; other] initial_sys =
    initialiseBook E initial_state (Buffer (file_bytes some_file))
                   (file_name some_file) initial_sys /\
  handleFileSelection E initial_state [] initial_sys = (Normal tt, initial_sys) /\
  handleFileSelection E initial_state [some_file]
      (mkSys Engine.initial initial_state false)
    = (Normal tt, mkSys Engine.initial initial_state false).
Proof.
  intros E other. split; [|split].
  - exact (proj1 (proj2 (file_intake_takes_first_file E initial_state
                           [some_file; other] initial_sys)) some_file [other] eq_refl).
  - exact (proj1 (proj2 (proj2 (file_intake_takes_first_file E initial_state []
                                  initial_sys))) eq_refl).
  - exact (proj2 (proj2 (proj2 (file_intake_takes_first_file E initial_state
                                  [some_file]
                                  (mkSys Engine.initial initial_state false)))) eq_refl).
Defined.

(* ================================================================= *)
(** * Printed numbers *)

Lemma forallb_seq (f : nat -> bool) (bound : nat) :
  forallb f (seq 0 (S bound)) = true -> forall n, n <= bound -> f n = true.
Proof.
  intros H n Hn. rewrite forallb_forall in H. apply H. apply in_seq. lia.
Qed.

(** X16. For every whole line-spacing percentage up to 1000 (the slider
    offers 120 to 220) the displayed multiplier is the percentage divided by
    100 written exactly, with two decimals: the binary division and the
    rounding of [toFixed] never show a neighbouring value. *)
Theorem lineHeightValue_exact
  (ToString : number -> jsstring) (a : AppState) (percent : nat) :
  percent <= 1000 ->
  lineSpacing a = of_Z (Z.of_nat percent) ->
  lineHeightValue ToString a = hundredths_text percent.
Proof.
  intros Hle Hls. unfold lineHeightValue. rewrite Hls. clear Hls a.
  apply eqb_eq. revert percent Hle.
  apply (forallb_seq
           (fun n => eqb (toFixed ToString 2 (div (of_Z (Z.of_nat n)) hundred))
                         (hundredths_text n))).
  vm_compute. reflexivity.
Qed.

Lemma lineHeightValue_exact_witness :
  let a := mkAppState None None [] zero (of_Z 110) light [] [] false None [] []
                      (of_Z 115) [] in
  lineHeightValue (fun _ => []) a = str "1.15".
Proof.
  intros a.
  exact (lineHeightValue_exact (fun _ => []) a (percent := 115)
           ltac:(lia) eq_refl).
Defined.

(** X17. The progress label shows the stored value: a progress stored by
    the relocation listener as [n] tenths, for [n] from 0 to 1000, is
    displayed as [n / 10] with its one decimal and a percent sign; printing
    does not round a second time to a neighbouring tenth. *)
Theorem progressLabel_shows_stored_tenths
  (ToString : number -> jsstring) (a : AppState) (n : nat) :
  n <= 1000 ->
  progress a = tenths_numeral false (Z.of_nat n) ->
  progressLabel ToString a = tenths_text n ++ str "%".
Proof.
  intros Hle Hp. unfold progressLabel. rewrite Hp. f_equal. clear Hp a.
  apply eqb_eq. revert n Hle.
  apply (forallb_seq
           (fun n => eqb (toFixed ToString 1 (tenths_numeral false (Z.of_nat n)))
                         (tenths_text n))).
  vm_compute. reflexivity.
Qed.

Lemma progressLabel_shows_stored_tenths_witness :
  let a := mkAppState None None [] (of_quotient false 457 10) (of_Z 110) light [] []
                      false None [] [] (of_Z 150) [] in
  progressLabel (fun _ => []) a = str "45.7%".
Proof.
  intros a.
  exact (progressLabel_shows_stored_tenths (fun _ => []) a (n := 457)
           ltac:(lia) eq_refl).
Defined.

(* ================================================================= *)
(** * The composed style sheet *)

(** X18. The composed style sheet carries the typography into the text
    rules and keeps the palette: [body], [p] and [li] all get the given font
    stack and line height, and [body] keeps the background and the colour of
    the selected theme. *)
Theorem composedTheme_typography_and_palette
  (name : ThemeName) (stack lineHeight : jsstring) :
  let sheet := composedTheme name stack lineHeight in
  let rule k := rule_or_empty k sheet in
  let base := rule_or_empty (str "body") (readerThemes name) in
  Style.lookup (str "font-family") (rule (str "body")) = Some stack /\
  Style.lookup (str "font-family") (rule (str "p")) = Some stack /\
  Style.lookup (str "font-family") (rule (str "li")) = Some stack /\
  Style.lookup (str "line-height") (rule (str "body")) = Some lineHeight /\
  Style.lookup (str "lineHeight") (rule (str "p")) = Some lineHeight /\
  Style.lookup (str "lineHeight") (rule (str "li")) = Some lineHeight /\
  Style.lookup (str "background") (rule (str "body")) = Style.lookup (str "background") base /\
  Style.lookup (str "color") (rule (str "body")) = Style.lookup (str "color") base /\
  Style.lookup (str "background") base <> None /\
  Style.lookup (str "color") base <> None.
Proof.
  destruct name; vm_compute; repeat split; discriminate.
Qed.

(** X19. Composition adds to the theme and takes nothing away: the
    selectors of the composed sheet are the same nine for every theme, font
    stack and line height, with the theme's own three first, and the theme's
    rules for media and captions come through unchanged. *)
Theorem composedTheme_extends_theme
  (name : ThemeName) (stack lineHeight : jsstring) :
  let sheet := composedTheme name stack lineHeight in
  Style.keys sheet =
    Style.keys (readerThemes name)
    ++ [str "html, body"; str "p"; str "li"; str "img, svg, video, object";
        str "table"; str "div, span, p, section, article"] /\
  Style.keys (readerThemes name) =
    [str "body"; str "img, svg, image, figure"; str "figure figcaption"] /\
  NoDup (Style.keys sheet) /\
  Style.lookup (str "img, svg, image, figure") sheet =
    Style.lookup (str "img, svg, image, figure") (readerThemes name) /\
  Style.lookup (str "figure figcaption") sheet =
    Style.lookup (str "figure figcaption") (readerThemes name).
Proof.
  destruct name; cbv zeta.
  all: split; [vm_compute; reflexivity|].
  all: split; [vm_compute; reflexivity|].
  all: split; [|split; vm_compute; reflexivity].
  all: vm_compute;
       repeat (constructor; [simpl; intuition discriminate|]); constructor.
Qed.

(* ================================================================= *)
(** * Chapters among the rows, and the location index after a load *)

(** X20. The rows of the chapter list that are labelled [Chapter] are
    exactly the top-level entries of the table of contents, in its order;
    every other row is a [Section] (one level down) or a [Subsection]
    (deeper), and the depth class of a row never exceeds 3. *)
Theorem chapter_rows_are_top_level (toc : list NavItem) :
  map toc_item
      (filter (fun row => eqb (row_depthLabel row) (str "Chapter")) (tocItems toc))
    = toc /\
  (forall row,
     (toc_depth row = 0 -> row_depthLabel row = str "Chapter") /\
     (toc_depth row = 1 -> row_depthLabel row = str "Section") /\
     (2 <= toc_depth row -> row_depthLabel row = str "Subsection") /\
     row_depth row <= 3).
Proof.
  split.
  - unfold tocItems. rewrite <- (flatten_level toc 0) at 2. f_equal.
    apply filter_ext. intros row. unfold row_depthLabel, row_depth, at_depth.
    destruct (toc_depth row) as [|[|[|d]]]; reflexivity.
  - intros row. unfold row_depthLabel, row_depth.
    destruct (toc_depth row) as [|[|[|d]]]; cbn; repeat split; intros; lia || reflexivity.
Qed.

Lemma chapter_rows_are_top_level_witness :
  let leaf := mkNavItem (str "s") (str "s.xhtml") (str "S") None in
  let row := mkTocEntry leaf 1 in
  row_depthLabel row = str "Section".
Proof.
  intros leaf row.
  exact (proj1 (proj2 (proj2 (chapter_rows_are_top_level []) row)) eq_refl).
Defined.

(** Reduction of the flags of a state that is given by its fields. *)
Ltac flags_simpl :=
  unfold sliderDisabled, locationsReady, navDisabled, tocDisabled, hasBook,
    locations_length;
  cbn [engine ui locations lookup book rendition loading negb orb history app];
  rewrite ?Nat.eqb_refl.

(** X21. After a load that starts while no session is published and whose
    requests all resolve, the location index of the new book is the one
    found in the file when that is not empty and the generated one
    otherwise: the generation of an index is requested when the file holds
    none, and not requested when it holds one.  Navigation and the chapter
    list are enabled, and the progress slider is enabled exactly when that
    index is not empty. *)
Theorem first_load_builds_index_when_missing
  (E : Behaviour) (source : Source) (name : jsstring) (s : Sys) :
  (forall c, rejects E c = false) ->
  viewer s = true ->
  book (ui s) = None ->
  rendition (ui s) = None ->
  let s' := snd (initialiseBook E (ui s) source name s) in
  let nextBook := next_handle (engine s) in
  let index := if Nat.eqb (parsed_locations E nextBook) 0
               then generated_locations E nextBook
               else parsed_locations E nextBook in
  locations_length (engine s') nextBook = index /\
  (parsed_locations E nextBook = 0 ->
     In (mkEntry (LocationsGenerate nextBook 1200) true) (history (engine s'))) /\
  (parsed_locations E nextBook <> 0 ->
     forall chars ok,
       In (mkEntry (LocationsGenerate nextBook chars) ok) (history (engine s')) ->
       In (mkEntry (LocationsGenerate nextBook chars) ok) (history (engine s))) /\
  navDisabled (ui s') = false /\
  tocDisabled (ui s') = false /\
  sliderDisabled s' = Nat.eqb index 0.
Proof.
  intros Hnever Hv Hb Hr s' nextBook index. subst s' nextBook index.
  destruct s as [[next locs hist] a v]. cbn [viewer ui engine next_handle history] in *.
  subst v.
  apply (@wp_snd unit (initialiseBook E a source name)
    (fun s' =>
       locations_length (engine s') next =
         (if Nat.eqb (parsed_locations E next) 0
          then generated_locations E next else parsed_locations E next) /\
       (parsed_locations E next = 0 ->
          In (mkEntry (LocationsGenerate next 1200) true) (history (engine s'))) /\
       (parsed_locations E next <> 0 ->
          forall chars ok,
            In (mkEntry (LocationsGenerate next chars) ok) (history (engine s')) ->
            In (mkEntry (LocationsGenerate next chars) ok) hist) /\
       navDisabled (ui s') = false /\
       tocDisabled (ui s') = false /\
       sliderDisabled s' =
         Nat.eqb (if Nat.eqb (parsed_locations E next) 0
                  then generated_locations E next else parsed_locations E next) 0)).
  unfold initialiseBook. destruct a as [ob ord ? ? ? ? ? ? ? ? ? ? ? ?].
  cbn [book rendition] in Hb, Hr. subst ob ord.
  wp_run.
  all: flags_simpl.
  all: match goal with
       | H : Nat.eqb (locations_length _ _) 0 = _ |- _ =>
           unfold locations_length in H; cbn [engine locations lookup] in H;
           rewrite Nat.eqb_refl in H; rewrite H
       end.
  all: rewrite <- ?app_assoc; cbn [app].
  all: split; [reflexivity|].
  all: split; [intros Hp; first [ apply in_or_app; right; cbn; tauto
                                | match goal with
                                  | H : Nat.eqb _ 0 = false |- _ =>
                                      apply Nat.eqb_neq in H; contradiction
                                  end ]|].
  all: split; [intros Hp chars ok Hin;
               first [ match goal with
                       | H : Nat.eqb _ 0 = true |- _ =>
                           apply Nat.eqb_eq in H; contradiction
                       end
                     | apply in_app_or in Hin; destruct Hin as [Hin|Hin];
                       [exact Hin | cbn in Hin; intuition discriminate] ]|].
  all: repeat split; try reflexivity.
  all: match goal with
       | |- negb (0 <? ?n) || false = _ => destruct n; reflexivity
       end.
Qed.

Lemma first_load_builds_index_when_missing_witness :
  let E := rejecting (fun _ => false) in
  let s' := snd (initialiseBook E initial_state (Buffer [80%N]) (str "a.epub")
                   initial_sys) in
  locations_length (engine s') 0 = 12 /\ sliderDisabled s' = false.
Proof.
  intros E s'.
  destruct (@first_load_builds_index_when_missing E (Buffer [80%N]) (str "a.epub")
              initial_sys (fun _ => eq_refl) eq_refl eq_refl eq_refl)
    as [Hi [_ [_ [_ [_ Hs]]]]].
  split; [exact Hi | exact Hs].
Defined.
